(** * Deep Bayesian active learning notebook (dbal_keras): query strategies,
      the active-learning loop and the data split, embedded shallowly.

    Numbers are exact rationals ([Q]); rounding of float32/float64 is outside
    the model.  Everything the notebook calls in numpy, keras and modAL whose
    code is not part of the repository is an operation of the class [Libs];
    what the development relies on about those operations is the class
    [LibsOk].  Randomness (numpy's generator, dropout masks, training) is an
    explicit generator state threaded through every call. *)

From Stdlib Require Import String Bool Arith Lia QArith List Permutation.
From Stdlib Require Import Sorting.Sorted.
Import ListNotations.
Local Open Scope nat_scope.

Set Implicit Arguments.

(** ** Exceptions and results *)

Inductive exn : Type :=
| ValueError
| IndexError
| NameError (name : string).

Inductive result (A : Type) : Type :=
| Ok (a : A)
| Raise (e : exn).
Arguments Ok {A} a.
Arguments Raise {A} e.

(** ** Observable events of a run, in the order they happen *)

Inductive event : Type :=
| RandomChoice (population size : nat)       (* np.random.choice(.., replace=False) *)
| ForwardPass (batch : nat) (learning_phase : bool)  (* one call of the K.function *)
| Fit (n_new verbose : nat)                  (* a fit after n_new rows were added, verbose=.. *)
| Score (verbose : nat)                      (* learner.score(.., verbose=..) *)
| Print (query : nat) (acc : Q)              (* 'Accuracy after query n: acc' *)
| Import (module : string)
| LibCall (qualname : string).               (* any other library call *)

(** ** The libraries the notebook runs on *)

Class Libs : Type := {
  rng : Type;                 (* state of the random generators *)
  RawImage : Type;            (* one 28x28 uint8 image of mnist.load_data() *)
  Row : Type;                 (* one image, after preprocessing *)
  (* .reshape(28, 28, 1).astype('float32') / 255. on one image *)
  scale_image : RawImage -> Row;
  Estimator : Type;
  (* KerasClassifier(create_keras_model) *)
  KerasClassifier : Estimator;
  Learner : Type;             (* modAL ActiveLearner: estimator + training set *)
  np_log : Q -> Q;
  (* ndarray.argsort(): positions of the elements in ascending order *)
  np_argsort : list Q -> list nat;
  (* np.random.choice(n, k, replace=False); None is ValueError *)
  np_random_choice : nat -> nat -> rng -> option (list nat) * rng;
  (* K.function([layers[0].input, K.learning_phase()], [layers[-1].output])
     applied to [batch, learning_phase], component [0] *)
  K_function : Learner -> list Row -> bool -> rng -> list (list Q) * rng;
  n_classes : Learner -> nat;
  (* ActiveLearner(estimator, X_training, y_training, ...); the verbose= of
     this call and of the two below changes what Keras writes, not what is
     returned: it is kept in the Fit and Score events *)
  ActiveLearner : Estimator -> list Row -> list (list Q) -> rng -> Learner * rng;
  (* learner.teach(X, y, epochs, batch_size) *)
  modAL_teach : Learner -> list Row -> list (list Q) -> nat -> nat -> rng -> Learner * rng;
  (* learner.score(X_test, y_test) *)
  modAL_score : Learner -> list Row -> list (list Q) -> Q
}.

Definition nthQ (i : nat) (a : list Q) : Q := nth i a 0%Q.

(** What is assumed of the libraries.  The sort behind [argsort] is left
    open (numpy's default is not stable): it returns the positions
    [0 .. len-1] in some order that makes the values ascend.  A draw without
    replacement returns [k] pairwise distinct positions below [n] whenever it
    returns, does return for [k <= n] on a non-empty population, and raises
    for [k > n].  The logarithm does not tell apart two fractions of the same
    value.  The network maps a batch to one row of [n_classes] numbers per
    input row. *)
Class LibsOk (L : Libs) : Prop := {
  argsort_perm : forall a, Permutation (np_argsort a) (seq 0 (length a));
  argsort_sorted : forall a i j, i <= j -> j < length a ->
    Qle (nthQ (nth i (np_argsort a) 0) a) (nthQ (nth j (np_argsort a) 0) a);
  choice_sound : forall n k g l, fst (np_random_choice n k g) = Some l ->
    length l = k /\ NoDup l /\ Forall (fun i => i < n) l;
  choice_total : forall n k g, k <= n -> 0 < n ->
    fst (np_random_choice n k g) <> None;
  choice_fail : forall n k g, n < k -> fst (np_random_choice n k g) = None;
  log_proper : forall x y, Qeq x y -> Qeq (np_log x) (np_log y);
  forward_shape : forall l xs ph g,
    length (fst (K_function l xs ph g)) = length xs /\
    Forall (fun r => length r = n_classes l) (fst (K_function l xs ph g))
}.

(** ** State and exception monad of a notebook run *)

Section Monad.
Context {L : Libs}.

Record world : Type := World { w_rng : rng; w_trace : list event }.

Definition M (A : Type) : Type := world -> result A * world.

Definition ret {A} (a : A) : M A := fun w => (Ok a, w).

Definition bind {A B} (c : M A) (k : A -> M B) : M B :=
  fun w => match c w with
           | (Ok a, w') => k a w'
           | (Raise e, w') => (Raise e, w')
           end.

Definition lift {A} (r : result A) : M A := fun w => (r, w).

Definition emit (e : event) : M unit :=
  fun w => (Ok tt, World (w_rng w) (w_trace w ++ [e])).

End Monad.

Notation "x <- c ;; k" := (bind c (fun x => k))
  (at level 61, c at next level, right associativity).
Notation "' pat <- c ;; k" := (bind c (fun x => match x with pat => k end))
  (at level 61, pat pattern, c at next level, right associativity).
Notation "c ;;; k" := (bind c (fun _ => k))
  (at level 61, right associativity).

(** ** numpy operations on nested lists *)

Section Numpy.
Variable A : Type.

(** [X[idx]] for an array of indices: IndexError when one is out of range. *)
Fixpoint np_take (X : list A) (idx : list nat) : result (list A) :=
  match idx with
  | [] => Ok []
  | i :: rest =>
      match nth_error X i with
      | None => Raise IndexError
      | Some x =>
          match np_take X rest with
          | Ok xs => Ok (x :: xs)
          | Raise e => Raise e
          end
      end
  end.

(** The mask [keep = ones(N, bool); keep[obj] = False] at position [i]. *)
Definition kept (obj : list nat) (i : nat) : bool :=
  negb (existsb (Nat.eqb i) obj).

(** [np.delete(X, obj, axis=0)]: the rows whose position is not listed in
    [obj] (a mask over the positions, so a repeated index removes one row).
    Every call of the notebook comes after [X[obj]] succeeded, so [obj] is in
    range whenever this runs. *)
Definition np_delete (X : list A) (obj : list nat) : list A :=
  map snd (filter (fun p => kept obj (fst p)) (combine (seq 0 (length X)) X)).

(** The same array, by recursion on the rows from position [s] on. *)
Fixpoint delete_from (s : nat) (X : list A) (obj : list nat) : list A :=
  match X with
  | [] => []
  | x :: rest =>
      if kept obj s then x :: delete_from (S s) rest obj
      else delete_from (S s) rest obj
  end.

Fixpoint zip_with (f : A -> A -> A) (x y : list A) : list A :=
  match x, y with
  | a :: x', b :: y' => f a b :: zip_with f x' y'
  | _, _ => []
  end.

(** [np.add.reduce] along the first axis: left to right from the first
    element.  An empty first axis has no sum; numpy turns the mean of an empty
    array into NaN, the model raises ValueError there and no statement below
    covers that case. *)
Definition add_reduce0 (add : A -> A -> A) (xs : list A) : result A :=
  match xs with
  | [] => Raise ValueError
  | x :: rest => Ok (fold_left add rest x)
  end.

End Numpy.

Definition eps : Q := 1 # 10000000000.

Definition QofNat (n : nat) : Q := inject_Z (Z.of_nat n).

Definition vec_add : list Q -> list Q -> list Q := zip_with Qplus.
Definition mat_add : list (list Q) -> list (list Q) -> list (list Q) :=
  zip_with vec_add.
Definition mat_map (f : Q -> Q) (m : list (list Q)) : list (list Q) :=
  map (map f) m.

(** [np.sum(m, axis=-1)] of a 2-d array *)
Definition np_sum_last (m : list (list Q)) : list Q :=
  map (fun row => fold_left Qplus row 0%Q) m.

(** [np.mean(t, axis=0)] of a 3-d array *)
Definition np_mean0_3d (t : list (list (list Q))) : result (list (list Q)) :=
  match add_reduce0 mat_add t with
  | Ok s => Ok (mat_map (fun x => x / QofNat (length t))%Q s)
  | Raise e => Raise e
  end.

(** [np.mean(m, axis=0)] of a 2-d array *)
Definition np_mean0_2d (m : list (list Q)) : result (list Q) :=
  match add_reduce0 vec_add m with
  | Ok s => Ok (map (fun x => x / QofNat (length m))%Q s)
  | Raise e => Raise e
  end.

(** [np.argmax] of one row: position of the first maximum. *)
Fixpoint argmax_from (best : nat) (bv : Q) (i : nat) (row : list Q) : nat :=
  match row with
  | [] => best
  | x :: rest =>
      if Qle_bool x bv then argmax_from best bv (S i) rest
      else argmax_from i x (S i) rest
  end.

Definition np_argmax (row : list Q) : result nat :=
  match row with
  | [] => Raise ValueError
  | x :: rest => Ok (argmax_from 0 x 1 rest)
  end.

Fixpoint mapR {A B : Type} (f : A -> result B) (l : list A) : result (list B) :=
  match l with
  | [] => Ok []
  | x :: rest =>
      match f x with
      | Raise e => Raise e
      | Ok y => match mapR f rest with
                | Ok ys => Ok (y :: ys)
                | Raise e => Raise e
                end
      end
  end.

(** [preds.shape[1]] *)
Definition shape1 {A : Type} (m : list (list A)) : nat :=
  match m with
  | [] => 0
  | row :: _ => length row
  end.

(** The [count] array of [scipy.stats.mode(preds, axis=0)]: for each column,
    how often its most frequent value occurs. *)
Definition column {A : Type} (d : A) (j : nat) (m : list (list A)) : list A :=
  map (fun row => nth j row d) m.

Definition mode_count (col : list nat) : nat :=
  fold_right Nat.max 0 (map (count_occ Nat.eq_dec col) col).

Definition stats_mode_count (preds : list (list nat)) : list nat :=
  map (fun j => mode_count (column 0 j preds)) (seq 0 (shape1 preds)).

(** ** Query strategies *)

(** The two free names of [var_ratio] that no cell of the notebook binds.
    A binding of [a] is a 3-d array and a binding of [stats] is the
    scipy.stats module: under any other binding the remaining lines cannot
    run either. *)
Record Globals : Type := { g_a : option (list (list (list Q))); g_stats : bool }.

(** Neither [a] nor [stats] is assigned or imported anywhere in the notebook. *)
Definition notebook_globals : Globals := {| g_a := None; g_stats := false |}.

Section Strategies.
Context {L : Libs}.

Definition random_choice (n k : nat) : M (list nat) :=
  fun w =>
    let (r, g) := np_random_choice n k (w_rng w) in
    let w' := World g (w_trace w ++ [RandomChoice n k]) in
    match r with
    | Some l => (Ok l, w')
    | None => (Raise ValueError, w')
    end.

Definition MC_output (learner : Learner) (batch : list Row) (learning_phase : bool)
  : M (list (list Q)) :=
  fun w =>
    let (out, g) := K_function learner batch learning_phase (w_rng w) in
    (Ok out, World g (w_trace w ++ [ForwardPass (length batch) learning_phase])).

(** [[body for _ in range(n)]] *)
Fixpoint comprehension {A : Type} (n : nat) (body : M A) : M (list A) :=
  match n with
  | 0 => ret []
  | S k => x <- body ;; xs <- comprehension k body ;; ret (x :: xs)
  end.

Definition MC_sampling (learner : Learner) (X : list Row) (random_subset : list nat)
  (T : nat) : M (list (list (list Q))) :=
  let learning_phase := true in
  comprehension T (batch <- lift (np_take X random_subset) ;;
                   MC_output learner batch learning_phase).

(** [np.random.choice(a, size=k, replace=False)] for a 1-d array [a]:
    [k] positions drawn without replacement, then [a] at those positions. *)
Definition random_choice_from (a : list nat) (k : nat) : M (list nat) :=
  pos <- random_choice (length a) k ;;
  lift (np_take a pos).

Definition uniform (learner : Learner) (X : list Row) (n_instances : nat)
  : M (list nat * list Row) :=
  query_idx <- random_choice_from (seq 0 (length X)) n_instances ;;
  query_instance <- lift (np_take X query_idx) ;;
  ret (query_idx, query_instance).

Definition plogp (p : Q) : Q := (p * np_log (p + eps))%Q.

(** [- np.sum(p * np.log(p + 1e-10), axis=-1)] of a 2-d array [p] *)
Definition neg_sum_plogp (p : list (list Q)) : list Q :=
  map Qopp (np_sum_last (mat_map plogp p)).

(** The three lines every strategy below ends with:
    [idx = (-acquisition).argsort()[:n_instances]],
    [query_idx = random_subset[idx]], [return query_idx, X[query_idx]]. *)
Definition select_top (random_subset : list nat) (X : list Row)
  (acquisition : list Q) (n_instances : nat) : M (list nat * list Row) :=
  let idx := firstn n_instances (np_argsort (map Qopp acquisition)) in
  query_idx <- lift (np_take random_subset idx) ;;
  query_instance <- lift (np_take X query_idx) ;;
  ret (query_idx, query_instance).

Definition max_entropy_acquisition (MC_samples : list (list (list Q)))
  : result (list Q) :=
  match np_mean0_3d MC_samples with
  | Ok expected_p => Ok (neg_sum_plogp expected_p)
  | Raise e => Raise e
  end.

Definition max_entropy (learner : Learner) (X : list Row) (n_instances T : nat)
  : M (list nat * list Row) :=
  random_subset <- random_choice (length X) 2000 ;;
  MC_samples <- MC_sampling learner X random_subset T ;;
  acquisition <- lift (max_entropy_acquisition MC_samples) ;;
  select_top random_subset X acquisition n_instances.

Definition lookup_a (globals : Globals) : result (list (list (list Q))) :=
  match g_a globals with
  | Some a => Ok a
  | None => Raise (NameError "a")
  end.

Definition lookup_stats (globals : Globals) : result unit :=
  if g_stats globals then Ok tt else Raise (NameError "stats").

(** [(1 - count / preds.shape[1]).reshape((-1,))] with
    [mode, count = stats.mode(preds, axis=0)] *)
Definition var_ratio_acquisition (preds : list (list nat)) : list Q :=
  let count := stats_mode_count preds in
  map (fun c => 1 - QofNat c / QofNat (shape1 preds))%Q count.

Definition var_ratio (globals : Globals) (learner : Learner) (X : list Row)
  (n_instances T : nat) : M (list nat * list Row) :=
  random_subset <- random_choice (length X) 2000 ;;
  MC_samples <- MC_sampling learner X random_subset T ;;
  a <- lift (lookup_a globals) ;;
  preds <- lift (mapR (mapR np_argmax) a) ;;
  _ <- lift (lookup_stats globals) ;;
  let acquisition := var_ratio_acquisition preds in
  select_top random_subset X acquisition n_instances.

Definition bald_acquisition (MC_samples : list (list (list Q))) : result (list Q) :=
  match np_mean0_2d (map (fun S => np_sum_last (mat_map plogp S)) MC_samples) with
  | Raise e => Raise e
  | Ok mean_sums =>
      let expected_entropy := map Qopp mean_sums in
      match np_mean0_3d MC_samples with
      | Raise e => Raise e
      | Ok expected_p =>
          let entropy_expected_p := neg_sum_plogp expected_p in
          Ok (zip_with Qminus entropy_expected_p expected_entropy)
      end
  end.

Definition bald (learner : Learner) (X : list Row) (n_instances T : nat)
  : M (list nat * list Row) :=
  random_subset <- random_choice (length X) 2000 ;;
  MC_samples <- MC_sampling learner X random_subset T ;;
  acquisition <- lift (bald_acquisition MC_samples) ;;
  select_top random_subset X acquisition n_instances.

(** ** The active-learning procedure *)

Definition new_learner (estimator : Estimator) (X_training : list Row)
  (y_training : list (list Q)) (verbose : nat) : M Learner :=
  fun w =>
    let (l, g) := ActiveLearner estimator X_training y_training (w_rng w) in
    (Ok l, World g (w_trace w ++ [Fit (length X_training) verbose])).

Definition learner_teach (learner : Learner) (X : list Row) (y : list (list Q))
  (epochs batch_size verbose : nat) : M Learner :=
  fun w =>
    let (l, g) := modAL_teach learner X y epochs batch_size (w_rng w) in
    (Ok l, World g (w_trace w ++ [Fit (length X) verbose])).

Definition learner_score (learner : Learner) (X_test : list Row)
  (y_test : list (list Q)) (verbose : nat) : M Q :=
  emit (Score verbose) ;;; ret (modAL_score learner X_test y_test).

(** The variables the loop body reads and rebinds. *)
Record al_state : Type := AlState {
  st_learner : Learner;
  st_X_pool : list Row;
  st_y_pool : list (list Q);
  st_perf_hist : list Q
}.

Definition strategy : Type := Learner -> list Row -> nat -> M (list nat * list Row).

Section Procedure.
Variable query_strategy : strategy.
Variables (X_test : list Row) (y_test : list (list Q)).
Variables (epochs batch_size n_instances verbose : nat).

(** One pass through the body of [for index in range(n_queries)].  The
    teach gets the [verbose] of the procedure, the score is always run with
    [verbose=0]. *)
Definition al_body (index : nat) (st : al_state) : M al_state :=
  let learner := st_learner st in
  let X_pool := st_X_pool st in
  let y_pool := st_y_pool st in
  '(query_idx, query_instance) <- query_strategy learner X_pool n_instances ;;
  X_new <- lift (np_take X_pool query_idx) ;;
  y_new <- lift (np_take y_pool query_idx) ;;
  learner <- learner_teach learner X_new y_new epochs batch_size verbose ;;
  let X_pool := np_delete X_pool query_idx in
  let y_pool := np_delete y_pool query_idx in
  model_accuracy <- learner_score learner X_test y_test 0 ;;
  emit (Print (index + 1) model_accuracy) ;;;
  ret (AlState learner X_pool y_pool (st_perf_hist st ++ [model_accuracy])).

Fixpoint al_loop (indices : list nat) (st : al_state) : M al_state :=
  match indices with
  | [] => ret st
  | index :: rest => st' <- al_body index st ;; al_loop rest st'
  end.

Definition active_learning_procedure (X_pool : list Row) (y_pool : list (list Q))
  (X_initial : list Row) (y_initial : list (list Q)) (estimator : Estimator)
  (n_queries : nat) : M (list Q) :=
  learner <- new_learner estimator X_initial y_initial verbose ;;
  acc0 <- learner_score learner X_test y_test verbose ;;
  let perf_hist := [acc0] in
  st <- al_loop (seq 0 n_queries) (AlState learner X_pool y_pool perf_hist) ;;
  ret (st_perf_hist st).

(** The state and the world the loop starts from: the learner fitted on the
    initial data and its first score. *)
Definition initial_state (X_pool : list Row) (y_pool : list (list Q))
  (X_initial : list Row) (y_initial : list (list Q)) (estimator : Estimator)
  (w : world) : al_state * world :=
  let (learner, g) := ActiveLearner estimator X_initial y_initial (w_rng w) in
  (AlState learner X_pool y_pool [modAL_score learner X_test y_test],
   World g (w_trace w ++ [Fit (length X_initial) verbose; Score verbose])).

End Procedure.
End Strategies.

(** ** The cells of the notebook *)

Section Notebook.
Context {L : Libs}.

Definition n_train : nat := 60 * 1000.
Definition n_test : nat := 10 * 1000.

(** [X.reshape(n, 28, 28, 1).astype('float32') / 255.] on [len(X)] images of
    28x28: ValueError unless there are exactly [n] of them. *)
Definition preprocess (n : nat) (X : list RawImage) : result (list Row) :=
  if length X =? n then Ok (map scale_image X) else Raise ValueError.

(** [keras.utils.to_categorical(y, num_classes)] *)
Definition one_hot (num_classes label : nat) : list Q :=
  map (fun c => if c =? label then 1%Q else 0%Q) (seq 0 num_classes).

Definition to_categorical (y : list nat) (num_classes : nat) : result (list (list Q)) :=
  mapR (fun label => if label <? num_classes then Ok (one_hot num_classes label)
                     else Raise IndexError) y.

(** [np.where(y[:, i] == 1)[0]] *)
Definition np_where_col_eq1 (y : list (list Q)) (i : nat) : list nat :=
  map fst (filter (fun p => Qeq_bool (nthQ i (snd p)) 1)
                  (combine (seq 0 (length y)) y)).

(** [for i in range(10): idx = ...; initial_idx = np.concatenate((initial_idx, idx))] *)
Fixpoint initial_idx_loop (classes : list nat) (y_train : list (list Q))
  (initial_idx : list nat) : M (list nat) :=
  match classes with
  | [] => ret initial_idx
  | i :: rest =>
      idx <- random_choice_from (np_where_col_eq1 y_train i) 2 ;;
      initial_idx_loop rest y_train (initial_idx ++ idx)
  end.

Record split : Type := Split {
  initial_idx : list nat;
  X_train : list Row;
  y_train : list (list Q);
  X_test : list Row;
  y_test : list (list Q);
  X_initial : list Row;
  y_initial : list (list Q);
  X_pool : list Row;
  y_pool : list (list Q)
}.

(** Cells 4 to 7, on the four arrays returned by [mnist.load_data()]. *)
Definition data_cells (X_train_raw : list RawImage) (y_train_raw : list nat)
  (X_test_raw : list RawImage) (y_test_raw : list nat) : M split :=
  X_train <- lift (preprocess n_train X_train_raw) ;;
  X_test <- lift (preprocess n_test X_test_raw) ;;
  y_train <- lift (to_categorical y_train_raw 10) ;;
  y_test <- lift (to_categorical y_test_raw 10) ;;
  initial_idx <- initial_idx_loop (seq 0 10) y_train [] ;;
  X_initial <- lift (np_take X_train initial_idx) ;;
  y_initial <- lift (np_take y_train initial_idx) ;;
  let X_pool := np_delete X_train initial_idx in
  let y_pool := np_delete y_train initial_idx in
  ret (Split initial_idx X_train y_train X_test y_test X_initial y_initial X_pool y_pool).

(** Cells 12 to 14: the two runs with the default arguments (epochs=50,
    batch_size=128, n_queries=100, n_instances=10, verbose=0, T=100), then
    the last cell. *)
Definition run_cells (d : split) : M (list Q * list Q) :=
  let estimator := KerasClassifier in
  entropy_perf_hist <-
    active_learning_procedure (fun l X n => max_entropy l X n 100)
      (X_test d) (y_test d) 50 128 10 0
      (X_pool d) (y_pool d) (X_initial d) (y_initial d) estimator 100 ;;
  let estimator := KerasClassifier in
  uniform_perf_hist <-
    active_learning_procedure uniform
      (X_test d) (y_test d) 50 128 10 0
      (X_pool d) (y_pool d) (X_initial d) (y_initial d) estimator 100 ;;
  emit (Import "matplotlib.pyplot") ;;;
  emit (Import "seaborn") ;;;
  emit (LibCall "sns.set") ;;;
  ret (entropy_perf_hist, uniform_perf_hist).

Definition notebook (X_train_raw : list RawImage) (y_train_raw : list nat)
  (X_test_raw : list RawImage) (y_test_raw : list nat) : M (list Q * list Q) :=
  d <- data_cells X_train_raw y_train_raw X_test_raw y_test_raw ;;
  run_cells d.

(** Positions, counted from [s], of the labels equal to [c]. *)
Fixpoint label_positions (c s : nat) (y : list nat) : list nat :=
  match y with
  | [] => []
  | l :: rest =>
      if c =? l then s :: label_positions c (S s) rest
      else label_positions c (S s) rest
  end.

Definition has_label (y : list nat) (c i : nat) : bool :=
  match nth_error y i with
  | Some l => l =? c
  | None => false
  end.

(** how many of the indices [idx] point at an example of class [c] *)
Definition count_label (y : list nat) (c : nat) (idx : list nat) : nat :=
  length (filter (has_label y c) idx).

(** The indices gathered for the classes below [c]: two per class. *)
Definition balanced (y : list nat) (c : nat) (acc : list nat) : Prop :=
  NoDup acc /\ length acc = 2 * c /\
  Forall (fun i => exists l, nth_error y i = Some l /\ l < c) acc /\
  forall c', c' < c -> count_label y c' acc = 2.

(** The shape of what [mnist.load_data()] returns: 60000 training images
    with labels among 0..9, every digit there at least twice, and 10000 test
    images with labels among 0..9. *)
Definition mnist_shaped (X_train_raw : list RawImage) (y_train_raw : list nat)
  (X_test_raw : list RawImage) (y_test_raw : list nat) : Prop :=
  length X_train_raw = n_train /\ length y_train_raw = n_train /\
  Forall (fun l => l < 10) y_train_raw /\
  (forall c, c < 10 -> 2 <= count_occ Nat.eq_dec y_train_raw c) /\
  length X_test_raw = n_test /\ Forall (fun l => l < 10) y_test_raw.

(** What the last cell leaves in the trace. *)
Definition last_cell : list event :=
  [Import "matplotlib.pyplot"; Import "seaborn"; LibCall "sns.set"].

(** A call that draws on a figure: anything reached through the names the
    last cell imports matplotlib.pyplot and seaborn under. *)
Definition is_plot_call (e : event) : bool :=
  match e with
  | LibCall q => (String.prefix "plt." q || String.prefix "sns." q)
                 && negb (String.eqb q "sns.set")
  | _ => false
  end.

End Notebook.

(** ** The acquisition formulas, as the specification words them *)

Section Formulas.
Context {L : Libs}.

Definition Qsum (l : list Q) : Q := fold_right Qplus 0%Q l.

(** probability of class [c] for point [i] in one sample *)
Definition entry (S : list (list Q)) (i c : nat) : Q := nthQ c (nth i S []).

(** mean over the T samples *)
Definition p_bar (MC : list (list (list Q))) (i c : nat) : Q :=
  (Qsum (map (fun S => entry S i c) MC) / QofNat (length MC))%Q.

(** entropy of the mean of the sampled class distributions *)
Definition predictive_entropy (MC : list (list (list Q))) (classes i : nat) : Q :=
  (- Qsum (map (fun c => p_bar MC i c * np_log (p_bar MC i c + eps)) (seq 0 classes)))%Q.

(** entropy of one sampled class distribution *)
Definition sample_entropy (classes i : nat) (S : list (list Q)) : Q :=
  (- Qsum (map (fun c => entry S i c * np_log (entry S i c + eps)) (seq 0 classes)))%Q.

(** entropy of the mean minus the mean of the entropies *)
Definition mutual_information (MC : list (list (list Q))) (classes i : nat) : Q :=
  (predictive_entropy MC classes i
   - Qsum (map (sample_entropy classes i) MC) / QofNat (length MC))%Q.

(** one minus the share of the T sampled argmax predictions of point [i] that
    equal the modal prediction; [preds] is the [T x batch] array of them *)
Definition variation_ratio (preds : list (list nat)) (i : nat) : Q :=
  (1 - QofNat (mode_count (column 0%nat i preds)) / QofNat (length preds))%Q.

(** [idx] lists the [n] positions (all of them when there are fewer than [n])
    among [0 .. B-1] with the largest score, highest first. *)
Definition is_top (score : nat -> Q) (B n : nat) (idx : list nat) : Prop :=
  length idx = Nat.min n B /\ NoDup idx /\ Forall (fun p => p < B) idx /\
  (forall p q, In p idx -> q < B -> ~ In q idx -> Qle (score q) (score p)) /\
  (forall i j, i <= j -> j < length idx ->
               Qle (score (nth j idx 0)) (score (nth i idx 0))).

(** [query_instance] is [X[query_idx]] row for row. *)
Definition rows_at (A : Type) (X : list A) (query_idx : list nat)
  (query_instance : list A) : Prop :=
  Forall2 (fun i x => nth_error X i = Some x) query_idx query_instance.

Definition matrix_shape (B C : nat) (S : list (list Q)) : Prop :=
  length S = B /\ Forall (fun r => length r = C) S.

Definition tensor_shape (T B C : nat) (MC : list (list (list Q))) : Prop :=
  length MC = T /\ Forall (matrix_shape B C) MC.

(** What the loop needs of a query strategy to keep going: on every pool of
    at least [min_pool] rows it returns, with valid indices, at most
    [n_instances] of them distinct. *)
Definition strategy_ok (query_strategy : strategy) (min_pool n_instances : nat)
  : Prop :=
  forall learner X w, min_pool <= length X ->
    exists query_idx query_instance w',
      query_strategy learner X n_instances w = (Ok (query_idx, query_instance), w') /\
      Forall (fun i => i < length X) query_idx /\
      length (nodup Nat.eq_dec query_idx) <= n_instances.

(** One query-and-teach iteration, from the state and the world before it to
    those after it: the strategy is asked for [n_instances] rows of the pool;
    the learner is taught the pool rows at the indices it returned, with
    their labels; these rows leave both pools; the taught learner is scored
    on the test set and the accuracy is printed under number [index + 1] and
    appended to the history. *)
Definition query_and_teach (query_strategy : strategy) (X_test : list Row)
  (y_test : list (list Q)) (epochs batch_size n_instances verbose index : nat)
  (before after : al_state * world) : Prop :=
  exists query_idx query_instance w_q X_new y_new,
    query_strategy (st_learner (fst before)) (st_X_pool (fst before))
                   n_instances (snd before)
      = (Ok (query_idx, query_instance), w_q) /\
    rows_at (st_X_pool (fst before)) query_idx X_new /\
    rows_at (st_y_pool (fst before)) query_idx y_new /\
    modAL_teach (st_learner (fst before)) X_new y_new epochs batch_size (w_rng w_q)
      = (st_learner (fst after), w_rng (snd after)) /\
    st_X_pool (fst after) = np_delete (st_X_pool (fst before)) query_idx /\
    st_y_pool (fst after) = np_delete (st_y_pool (fst before)) query_idx /\
    st_perf_hist (fst after)
      = st_perf_hist (fst before)
        ++ [modAL_score (st_learner (fst after)) X_test y_test] /\
    w_trace (snd after)
      = w_trace w_q
        ++ [Fit (length X_new) verbose; Score 0;
            Print (index + 1) (modAL_score (st_learner (fst after)) X_test y_test)].

(** The claim that the script draws the accuracy curves. *)
Definition plots_curves (w : world) : Prop :=
  exists e, In e (w_trace w) /\ is_plot_call e = true.

(** A computation that adds no plotting call to the trace. *)
Definition quiet {A : Type} (c : M A) : Prop :=
  forall w, exists evs,
    w_trace (snd (c w)) = w_trace w ++ evs /\
    Forall (fun e => is_plot_call e = false) evs.

End Formulas.

(** ** Readings of the trace and the exact behaviour of a strategy *)

Section TraceReadings.
Context {L : Libs}.

Definition is_forward (e : event) : bool :=
  match e with
  | ForwardPass _ _ => true
  | _ => false
  end.

Definition is_fit (e : event) : bool :=
  match e with
  | Fit _ _ => true
  | _ => false
  end.

Definition is_score (e : event) : bool :=
  match e with
  | Score _ => true
  | _ => false
  end.

(** how many events of one kind a trace holds *)
Definition count_events (kind : event -> bool) (tr : list event) : nat :=
  length (filter kind tr).

(** how many times [MC_output] called its K.function, a forward pass over
    one batch with dropout on; the fits and the scores run the network too
    and are counted apart *)
Definition mc_forward_passes (tr : list event) : nat :=
  count_events is_forward tr.

(** how many times the network was fitted, by the ActiveLearner constructor
    or by learner.teach *)
Definition fits (tr : list event) : nat := count_events is_fit tr.

(** how many times the network was evaluated by learner.score *)
Definition scores (tr : list event) : nat := count_events is_score tr.

(** the 'Accuracy after query n: acc' lines that the print statement of the
    loop wrote, in order; the progress output of a fit or a score run with
    verbose other than 0 belongs to its [Fit] or [Score] event *)
Fixpoint prints_of (tr : list event) : list (nat * Q) :=
  match tr with
  | [] => []
  | Print query acc :: rest => (query, acc) :: prints_of rest
  | _ :: rest => prints_of rest
  end.

(** A computation that prints no accuracy line. *)
Definition prints_nothing {A : Type} (c : M A) : Prop :=
  forall w, prints_of (w_trace (snd (c w))) = prints_of (w_trace w).

(** A strategy that, asked for [n_instances], returns exactly [m] pairwise
    distinct valid indices on every pool of at least [min_pool] rows and
    raises ValueError on every smaller pool. *)
Definition strategy_exact (query_strategy : strategy)
  (min_pool m n_instances : nat) : Prop :=
  forall learner X w,
    (min_pool <= length X ->
     exists query_idx query_instance w',
       query_strategy learner X n_instances w
         = (Ok (query_idx, query_instance), w') /\
       Forall (fun i => i < length X) query_idx /\
       NoDup query_idx /\ length query_idx = m) /\
    (length X < min_pool ->
     exists w', query_strategy learner X n_instances w = (Raise ValueError, w')).

End TraceReadings.

(** ** A small executable stand-in for the libraries

    The generator state is a counter; [np_random_choice] takes a rotation of
    [0 .. n-1], the network returns one-hot rows that move with the counter
    when the learning phase is on, and a learner is the number of rows it was
    fitted on. *)

Module TestLibs.

Fixpoint insert_idx (a : list Q) (i : nat) (l : list nat) : list nat :=
  match l with
  | [] => [i]
  | j :: rest =>
      if Qle_bool (nthQ i a) (nthQ j a) then i :: j :: rest
      else j :: insert_idx a i rest
  end.

Definition argsort (a : list Q) : list nat :=
  fold_right (insert_idx a) [] (seq 0 (length a)).

(** the order [argsort] sorts positions by *)
Definition le_at (a : list Q) (i j : nat) : Prop := Qle (nthQ i a) (nthQ j a).

Definition rotate (r n : nat) : list nat :=
  skipn (r mod n) (seq 0 n) ++ firstn (r mod n) (seq 0 n).

Definition choice (n k g : nat) : option (list nat) * nat :=
  if k <=? n then (Some (firstn k (rotate g n)), S g) else (None, S g).

Definition forward (l : nat) (xs : list nat) (learning_phase : bool) (g : nat)
  : list (list Q) * nat :=
  (map (fun x => map (fun c => if c =? (x + (if learning_phase then g else 0)) mod 10
                               then 1%Q else 0%Q) (seq 0 10)) xs, S g).

#[export] Instance test_libs : Libs := {|
  rng := nat;
  RawImage := nat;
  Row := nat;
  scale_image := fun x => x;
  Estimator := unit;
  KerasClassifier := tt;
  Learner := nat;
  np_log := fun x => (x - 1)%Q;
  np_argsort := argsort;
  np_random_choice := choice;
  K_function := forward;
  n_classes := fun _ => 10;
  ActiveLearner := fun _ X _ g => (length X, S g);
  modAL_teach := fun l X _ _ _ g => (l + length X, S g);
  modAL_score := fun l _ _ => (Z.of_nat l # 1000)%Q
|}.

Definition w0 : world := World (0 : @rng test_libs) [].

(** Data of the shape of MNIST: the digits 0..9 over and over. *)
Definition X_train_raw : list (@RawImage test_libs) := repeat 0 n_train.
Definition y_train_raw : list nat := concat (repeat (seq 0 10) (6 * 1000)).
Definition X_test_raw : list (@RawImage test_libs) := repeat 0 n_test.
Definition y_test_raw : list nat := concat (repeat (seq 0 10) 1000).


(** A run of two queries of one instance each on a pool of three rows, and
    the world it ends in. *)
Definition small_run : result (list Q) * world :=
  active_learning_procedure (L := test_libs) uniform [] [] 50 128 1 0
    [5; 6; 7] [[1%Q]; [0%Q]; [1%Q]] [] [] tt 2 w0.

Definition small_run_end : world :=
  World (5 : @rng test_libs)
    [Fit 0 0; Score 0; RandomChoice 3 1; Fit 1 0; Score 0;
     Print 1 (1 # 1000)%Q;
     RandomChoice 2 1; Fit 1 0; Score 0; Print 2 (2 # 1000)%Q].

End TestLibs.

(** * Verification *)

(** ** Running a computation of the monad *)

Section MonadFacts.
Context {L : Libs}.

Lemma bind_Ok {A B} (c : M A) (k : A -> M B) w a w1 :
  c w = (Ok a, w1) -> bind c k w = k a w1.
Proof. intros H. unfold bind. now rewrite H. Qed.

Lemma bind_Raise {A B} (c : M A) (k : A -> M B) w e w1 :
  c w = (Raise e, w1) -> bind c k w = (Raise e, w1).
Proof. intros H. unfold bind. now rewrite H. Qed.

Lemma bind_Ok_inv {A B} (c : M A) (k : A -> M B) w b w' :
  bind c k w = (Ok b, w') ->
  exists a w1, c w = (Ok a, w1) /\ k a w1 = (Ok b, w').
Proof.
  unfold bind. destruct (c w) as [[a|e] w1]; intros H.
  - now exists a, w1.
  - discriminate.
Qed.

Lemma lift_Ok_inv {A} (r : result A) w a w' :
  lift r w = (Ok a, w') -> r = Ok a /\ w' = w.
Proof. unfold lift. intros H. inversion H. now subst. Qed.

Lemma ret_inv {A} (a b : A) w w' :
  ret a w = (Ok b, w') -> b = a /\ w' = w.
Proof. unfold ret. intros H. inversion H. now subst. Qed.

End MonadFacts.

(** Decompose a successful run into the successful runs of its steps. *)
Ltac run_inv H :=
  repeat match type of H with
  | bind _ _ _ = (Ok _, _) =>
      let a := fresh "v" in let w := fresh "w" in
      let H1 := fresh "Hrun" in
      apply bind_Ok_inv in H; destruct H as (a & w & H1 & H)
  | ret _ _ = (Ok _, _) =>
      apply ret_inv in H; destruct H; subst
  end.

(** ** Indexing and deleting by an index array *)

Section NumpyFacts.
Variable A : Type.
Implicit Types (X : list A) (idx : list nat).

Lemma np_take_Ok_Forall2 X idx xs :
  np_take X idx = Ok xs ->
  Forall2 (fun i x => nth_error X i = Some x) idx xs.
Proof.
  revert xs. induction idx as [|i idx IH]; simpl; intros xs H.
  - inversion H. constructor.
  - destruct (nth_error X i) as [x|] eqn:Hi; [|discriminate].
    destruct (np_take X idx) as [ys|e]; [|discriminate].
    inversion H; subst. constructor; auto.
Qed.

Lemma np_take_length X idx xs :
  np_take X idx = Ok xs -> length xs = length idx.
Proof.
  intros H. apply np_take_Ok_Forall2 in H.
  symmetry. eapply Forall2_length; eauto.
Qed.

Lemma np_take_in_range X idx xs :
  np_take X idx = Ok xs -> Forall (fun i => i < length X) idx.
Proof.
  intros H. apply np_take_Ok_Forall2 in H.
  induction H; constructor; auto.
  apply nth_error_Some. congruence.
Qed.

Lemma np_take_total X idx :
  Forall (fun i => i < length X) idx -> exists xs, np_take X idx = Ok xs.
Proof.
  induction 1 as [|i idx Hi _ [xs IH]]; simpl.
  - now exists [].
  - apply nth_error_Some in Hi.
    destruct (nth_error X i) as [x|]; [|congruence].
    rewrite IH. now exists (x :: xs).
Qed.

Lemma np_take_map X idx xs d :
  np_take X idx = Ok xs -> xs = map (fun i => nth i X d) idx.
Proof.
  intros H. apply np_take_Ok_Forall2 in H.
  induction H as [|i x idx xs Hi _ IH]; simpl; [reflexivity|].
  f_equal; auto. symmetry. now apply nth_error_nth.
Qed.

Lemma np_take_raises_IndexError X idx e :
  np_take X idx = Raise e -> e = IndexError.
Proof.
  induction idx as [|i idx IH]; simpl; [discriminate|].
  destruct (nth_error X i); [|now inversion 1].
  destruct (np_take X idx); [discriminate|].
  intros H; inversion H; subst. now apply IH.
Qed.

Lemma kept_true obj i : kept obj i = true <-> ~ In i obj.
Proof.
  unfold kept. rewrite negb_true_iff. split.
  - intros H Hin. assert (existsb (Nat.eqb i) obj = true) as E.
    { apply existsb_exists. exists i. split; auto. apply Nat.eqb_refl. }
    congruence.
  - intros H. destruct (existsb (Nat.eqb i) obj) eqn:E; [|reflexivity].
    apply existsb_exists in E. destruct E as (j & Hj & Hij).
    apply Nat.eqb_eq in Hij. subst. contradiction.
Qed.

Lemma np_delete_from X obj s :
  map snd (filter (fun p => kept obj (fst p))
                  (combine (seq s (length X)) X)) = delete_from s X obj.
Proof.
  revert s. induction X as [|x X IH]; intros s; simpl; [reflexivity|].
  destruct (kept obj s); simpl; now rewrite IH.
Qed.

Lemma np_delete_eq X obj : np_delete X obj = delete_from 0 X obj.
Proof. apply np_delete_from. Qed.

Lemma delete_from_In s X obj x :
  In x (delete_from s X obj) <->
  exists i, nth_error X i = Some x /\ ~ In (s + i) obj.
Proof.
  revert s. induction X as [|y X IH]; intros s; simpl.
  - split; [tauto|]. intros (i & Hi & _). destruct i; discriminate.
  - destruct (kept obj s) eqn:K.
    + simpl. rewrite IH. split.
      * intros [->|(i & Hi & Hn)].
        -- exists 0. split; [reflexivity|]. rewrite Nat.add_0_r.
           now apply kept_true.
        -- exists (S i). split; [assumption|].
           now rewrite Nat.add_succ_r.
      * intros ([|i] & Hi & Hn); simpl in Hi.
        -- left. congruence.
        -- right. exists i. split; [assumption|].
           now rewrite Nat.add_succ_r in Hn.
    + rewrite IH. split.
      * intros (i & Hi & Hn). exists (S i). split; [assumption|].
        now rewrite Nat.add_succ_r.
      * intros ([|i] & Hi & Hn); simpl in Hi.
        -- rewrite Nat.add_0_r in Hn. apply kept_true in Hn. congruence.
        -- exists i. split; [assumption|]. now rewrite Nat.add_succ_r in Hn.
Qed.

Lemma np_delete_In X obj x :
  In x (np_delete X obj) <-> exists i, nth_error X i = Some x /\ ~ In i obj.
Proof. rewrite np_delete_eq. apply delete_from_In. Qed.

Lemma np_delete_incl X obj : incl (np_delete X obj) X.
Proof.
  intros x Hx. apply np_delete_In in Hx. destruct Hx as (i & Hi & _).
  eapply nth_error_In; eauto.
Qed.

Lemma delete_from_NoDup s X obj : NoDup X -> NoDup (delete_from s X obj).
Proof.
  revert s. induction X as [|x X IH]; intros s HX; simpl; [constructor|].
  inversion HX; subst.
  destruct (kept obj s); auto. constructor; auto.
  intros Hin. apply delete_from_In in Hin. destruct Hin as (i & Hi & _).
  apply nth_error_In in Hi. contradiction.
Qed.

Lemma np_delete_NoDup X obj : NoDup X -> NoDup (np_delete X obj).
Proof. rewrite np_delete_eq. apply delete_from_NoDup. Qed.

(** A deleted position takes its item out of a pool of distinct items. *)
Lemma np_delete_removes X obj j x :
  NoDup X -> In j obj -> nth_error X j = Some x -> ~ In x (np_delete X obj).
Proof.
  intros HX Hj Hx Hin. apply np_delete_In in Hin.
  destruct Hin as (i & Hi & Hn).
  assert (i = j).
  { eapply NoDup_nth_error; eauto.
    - apply nth_error_Some. congruence.
    - congruence. }
  subst. contradiction.
Qed.

Lemma delete_from_length s X obj :
  length (delete_from s X obj) =
  length (filter (kept obj) (seq s (length X))).
Proof.
  revert s. induction X as [|x X IH]; intros s; simpl; [reflexivity|].
  destruct (kept obj s); simpl; now rewrite IH.
Qed.

Lemma removed_positions obj n :
  Forall (fun i => i < n) obj ->
  length (filter (fun i => negb (kept obj i)) (seq 0 n)) =
  length (nodup Nat.eq_dec obj).
Proof.
  intros Hr. apply Permutation_length. apply NoDup_Permutation.
  - apply NoDup_filter, seq_NoDup.
  - apply NoDup_nodup.
  - intros i. rewrite filter_In, nodup_In, in_seq, negb_true_iff.
    rewrite Forall_forall in Hr. split.
    + intros [_ K]. destruct (in_dec Nat.eq_dec i obj) as [|N]; [assumption|].
      apply kept_true in N. congruence.
    + intros Hi. split; [specialize (Hr i Hi); lia|].
      destruct (kept obj i) eqn:K; [|reflexivity].
      apply kept_true in K. contradiction.
Qed.

(** The array shrinks by the number of distinct deleted positions. *)
Lemma np_delete_length X obj :
  Forall (fun i => i < length X) obj ->
  length (np_delete X obj) + length (nodup Nat.eq_dec obj) = length X.
Proof.
  intros Hr. rewrite np_delete_eq, delete_from_length.
  rewrite <- (removed_positions Hr).
  rewrite filter_length. apply length_seq.
Qed.

End NumpyFacts.

Lemma delete_from_combine (A B : Type) (X : list A) (Y : list B) obj s :
  combine (delete_from s X obj) (delete_from s Y obj) =
  delete_from s (combine X Y) obj.
Proof.
  revert Y s. induction X as [|x X IH]; intros [|y Y] s; simpl; try reflexivity.
  - destruct (kept obj s); [reflexivity|].
    destruct (delete_from (S s) X obj); reflexivity.
  - destruct (kept obj s); simpl; now rewrite IH.
Qed.

(** Deleting the same positions from two arrays keeps the rows paired. *)
Lemma np_delete_combine (A B : Type) (X : list A) (Y : list B) obj :
  combine (np_delete X obj) (np_delete Y obj) = np_delete (combine X Y) obj.
Proof. rewrite !np_delete_eq. apply delete_from_combine. Qed.

Lemma np_delete_same_length (A B : Type) (X : list A) (Y : list B) obj :
  length X = length Y -> length (np_delete X obj) = length (np_delete Y obj).
Proof.
  intros H. rewrite !np_delete_eq, !delete_from_length. now rewrite H.
Qed.

(** ** Sorted index lists *)

Section SortedFacts.

Lemma In_firstn (A : Type) (l : list A) k x : In x (firstn k l) -> In x l.
Proof.
  revert k. induction l as [|y l IH]; intros [|k]; simpl; try tauto.
  intros [->|H]; eauto.
Qed.

Lemma NoDup_firstn (A : Type) (l : list A) k : NoDup l -> NoDup (firstn k l).
Proof.
  revert k. induction l as [|x l IH]; intros [|k] H; simpl; try constructor.
  - inversion H; subst. intros Hin. apply In_firstn in Hin. contradiction.
  - inversion H; auto.
Qed.

Lemma StronglySorted_nth (A : Type) (R : A -> A -> Prop) (l : list A) d :
  (forall x, R x x) -> StronglySorted R l ->
  forall i j, i <= j -> j < length l -> R (nth i l d) (nth j l d).
Proof.
  intros Hrefl Hs. induction Hs as [|x l Hs IH Hall]; intros i j Hij Hj.
  - simpl in Hj. lia.
  - destruct j as [|j].
    + assert (i = 0) by lia. subst. apply Hrefl.
    + simpl in Hj. destruct i as [|i]; simpl.
      * rewrite Forall_forall in Hall. apply Hall. apply nth_In. lia.
      * apply IH; lia.
Qed.

End SortedFacts.

(** ** The stand-in satisfies what is assumed of the libraries *)

Module TestLibsFacts.
Import TestLibs.

Lemma insert_idx_perm a i l : Permutation (insert_idx a i l) (i :: l).
Proof.
  induction l as [|j l IH]; simpl; [reflexivity|].
  destruct (Qle_bool (nthQ i a) (nthQ j a)); [reflexivity|].
  rewrite IH. apply perm_swap.
Qed.

Lemma insert_idx_sorted a i l :
  StronglySorted (le_at a) l -> StronglySorted (le_at a) (insert_idx a i l).
Proof.
  induction 1 as [|j l Hs IH Hall]; simpl.
  - repeat constructor.
  - destruct (Qle_bool (nthQ i a) (nthQ j a)) eqn:E.
    + apply Qle_bool_iff in E. constructor; [now constructor|].
      constructor; [exact E|].
      eapply Forall_impl; [|exact Hall].
      intros k Hk. unfold le_at in *. eapply Qle_trans; eauto.
    + constructor; [exact IH|].
      eapply Permutation_Forall; [symmetry; apply insert_idx_perm|].
      constructor; [|exact Hall].
      unfold le_at. apply Qlt_le_weak. apply Qnot_le_lt.
      intros H. apply Qle_bool_iff in H. congruence.
Qed.

Lemma argsort_perm_seq a : Permutation (argsort a) (seq 0 (length a)).
Proof.
  unfold argsort. induction (seq 0 (length a)) as [|i l IH]; simpl; [reflexivity|].
  rewrite insert_idx_perm. now constructor.
Qed.

Lemma argsort_strongly_sorted a : StronglySorted (le_at a) (argsort a).
Proof.
  unfold argsort. induction (seq 0 (length a)) as [|i l IH]; simpl.
  - constructor.
  - now apply insert_idx_sorted.
Qed.

Lemma rotate_perm r n : Permutation (rotate r n) (seq 0 n).
Proof.
  unfold rotate. rewrite Permutation_app_comm. now rewrite firstn_skipn.
Qed.

Lemma choice_sample n k g l :
  fst (choice n k g) = Some l ->
  length l = k /\ NoDup l /\ Forall (fun i => i < n) l.
Proof.
  unfold choice. destruct (k <=? n) eqn:E; simpl; [|discriminate].
  intros H; inversion H; subst; clear H. apply Nat.leb_le in E.
  pose proof (rotate_perm g n) as P. split; [|split].
  - rewrite length_firstn. apply Permutation_length in P.
    rewrite length_seq in P. lia.
  - apply NoDup_firstn. eapply Permutation_NoDup; [symmetry; exact P|].
    apply seq_NoDup.
  - apply Forall_forall. intros i Hi. apply In_firstn in Hi.
    eapply Permutation_in in Hi; [|exact P]. apply in_seq in Hi. lia.
Qed.

#[export] Instance test_libs_ok : LibsOk test_libs.
Proof.
  constructor.
  - exact argsort_perm_seq.
  - intros a i j Hij Hj. simpl.
    apply (StronglySorted_nth (R := le_at a)).
    + intros x. apply Qle_refl.
    + apply argsort_strongly_sorted.
    + exact Hij.
    + pose proof (Permutation_length (argsort_perm_seq a)) as E.
      rewrite length_seq in E. lia.
  - exact choice_sample.
  - intros n k g Hk _. simpl. unfold choice.
    apply Nat.leb_le in Hk. rewrite Hk. discriminate.
  - intros n k g Hk. simpl. unfold choice.
    apply Nat.leb_gt in Hk. now rewrite Hk.
  - intros x y H. simpl. now rewrite H.
  - intros l xs ph g. simpl. split.
    + apply length_map.
    + apply Forall_forall. intros r Hr. apply in_map_iff in Hr.
      destruct Hr as (x & <- & _).
      change (length (map (fun c => if c =? (x + (if ph then g else 0)) mod 10
                                    then 1%Q else 0%Q) (seq 0 10)) = 10).
      rewrite length_map. apply length_seq.
Qed.

Lemma small_run_result :
  small_run = (Ok [(0 # 1000)%Q; (1 # 1000)%Q; (2 # 1000)%Q], small_run_end).
Proof. reflexivity. Qed.

End TestLibsFacts.

(** ** Library calls in a run *)

Section Primitives.
Context {L : Libs} {OK : LibsOk L}.

Lemma random_choice_Ok n k w l w' :
  random_choice n k w = (Ok l, w') ->
  length l = k /\ NoDup l /\ Forall (fun i => i < n) l /\
  w_trace w' = w_trace w ++ [RandomChoice n k].
Proof.
  unfold random_choice.
  destruct (np_random_choice n k (w_rng w)) as [r g] eqn:E.
  destruct r as [l0|]; intros H; inversion H; subst; clear H.
  pose proof (@choice_sound L OK n k (w_rng w) l) as S.
  rewrite E in S. destruct (S eq_refl) as (? & ? & ?). auto.
Qed.

Lemma random_choice_total n k w :
  k <= n -> 0 < n -> exists l w', random_choice n k w = (Ok l, w').
Proof.
  intros Hk Hn. unfold random_choice.
  pose proof (@choice_total L OK n k (w_rng w) Hk Hn) as T.
  destruct (np_random_choice n k (w_rng w)) as [[l|] g]; simpl in T.
  - eauto.
  - congruence.
Qed.

Lemma random_choice_small n k w :
  n < k ->
  exists g, random_choice n k w =
            (Raise ValueError, World g (w_trace w ++ [RandomChoice n k])).
Proof.
  intros Hk. unfold random_choice.
  pose proof (@choice_fail L OK n k (w_rng w) Hk) as F.
  destruct (np_random_choice n k (w_rng w)) as [r g]; simpl in F. subst.
  now exists g.
Qed.

Lemma np_take_seq n pos :
  Forall (fun i => i < n) pos -> np_take (seq 0 n) pos = Ok pos.
Proof.
  induction 1 as [|i pos Hi _ IH]; simpl; [reflexivity|].
  rewrite IH.
  assert (nth_error (seq 0 n) i = Some i) as ->; [|reflexivity].
  rewrite (nth_error_nth' _ 0) by now rewrite length_seq.
  now rewrite seq_nth.
Qed.

(** Drawing from [range(n)] is drawing positions. *)
Lemma random_choice_from_seq n k w :
  random_choice_from (seq 0 n) k w = random_choice n k w.
Proof.
  unfold random_choice_from, bind. rewrite length_seq.
  destruct (random_choice n k w) as [[pos|e] w'] eqn:E; [|reflexivity].
  destruct (random_choice_Ok _ _ _ E) as (_ & _ & Hr & _).
  unfold lift. now rewrite (np_take_seq Hr).
Qed.

Lemma uniform_unfold learner (X : list Row) n_instances w :
  uniform learner X n_instances w =
  (query_idx <- random_choice (length X) n_instances ;;
   query_instance <- lift (np_take X query_idx) ;;
   ret (query_idx, query_instance)) w.
Proof. unfold uniform, bind. now rewrite random_choice_from_seq. Qed.

Lemma MC_sampling_run learner (X : list Row) subset T w :
  Forall (fun i => i < length X) subset ->
  exists MC w',
    MC_sampling learner X subset T w = (Ok MC, w') /\
    tensor_shape T (length subset) (n_classes learner) MC /\
    w_trace w' = w_trace w ++ repeat (ForwardPass (length subset) true) T.
Proof.
  intros Hr. destruct (np_take_total _ Hr) as [batch Hb].
  pose proof (np_take_length _ _ Hb) as Hlen.
  unfold MC_sampling. revert w. induction T as [|T IH]; intros w; simpl.
  - exists [], w. repeat split; auto. now rewrite app_nil_r.
  - destruct (K_function learner batch true (w_rng w)) as [out g] eqn:E.
    set (w1 := World g (w_trace w ++ [ForwardPass (length batch) true])).
    assert ((batch <- lift (np_take X subset) ;; MC_output learner batch true) w
            = (Ok out, w1)) as Hbody.
    { unfold bind, lift. rewrite Hb. unfold MC_output. now rewrite E. }
    destruct (IH w1) as (MC & w' & Hrun & (HT & Hshape) & Htr).
    erewrite bind_Ok; [|exact Hbody].
    erewrite bind_Ok; [|exact Hrun]. unfold ret.
    exists (out :: MC), w'. split; [reflexivity|]. split.
    + split; [simpl; now rewrite HT|]. constructor; [|assumption].
      pose proof (@forward_shape L OK learner batch true (w_rng w)) as [F1 F2].
      rewrite E in F1, F2. simpl in F1, F2. split; [congruence|assumption].
    + rewrite Htr. subst w1. simpl. rewrite Hlen, <- app_assoc. reflexivity.
Qed.

Lemma nthQ_opp i a : nthQ i (map Qopp a) = Qopp (nthQ i a).
Proof. unfold nthQ. change 0%Q with (Qopp 0). apply map_nth. Qed.

Lemma Qopp_le_inv x y : Qle (- x) (- y) -> Qle y x.
Proof.
  intros H. apply Qopp_le_compat in H. now rewrite !Qopp_involutive in H.
Qed.

Lemma NoDup_map_nth (subset idx : list nat) :
  NoDup subset -> NoDup idx -> Forall (fun p => p < length subset) idx ->
  NoDup (map (fun p => nth p subset 0) idx).
Proof.
  intros Hs Hi Hr. induction Hi as [|p idx Hp Hi IH]; simpl; constructor.
  - inversion Hr as [|? ? Hpr Hrr]; subst. intros Hin.
    apply in_map_iff in Hin. destruct Hin as (q & Hq & Hqin).
    rewrite Forall_forall in Hrr. specialize (Hrr q Hqin).
    assert (q = p) by (eapply (proj1 (NoDup_nth subset 0)); eauto).
    subst. contradiction.
  - apply IH. now inversion Hr.
Qed.

(** The positions kept by [argsort()[:n]] of the negated scores. *)
Lemma argsort_top (acq : list Q) n :
  is_top (fun p => nthQ p acq) (length acq) n
         (firstn n (np_argsort (map Qopp acq))).
Proof.
  set (s := np_argsort (map Qopp acq)).
  pose proof (@argsort_perm L OK (map Qopp acq)) as P. fold s in P.
  rewrite length_map in P.
  assert (length s = length acq) as Hls.
  { apply Permutation_length in P. now rewrite length_seq in P. }
  assert (NoDup s) as Hnd.
  { eapply Permutation_NoDup; [symmetry; exact P|apply seq_NoDup]. }
  assert (forall i j, i <= j -> j < length acq ->
            Qle (nthQ (nth j s 0) acq) (nthQ (nth i s 0) acq)) as Hsorted.
  { intros i j Hij Hj. apply Qopp_le_inv. rewrite <- !nthQ_opp.
    apply argsort_sorted; [assumption|now rewrite length_map]. }
  assert (length (firstn n s) = Nat.min n (length acq)) as Hlen.
  { rewrite length_firstn. now rewrite Hls. }
  unfold is_top. repeat split.
  - exact Hlen.
  - now apply NoDup_firstn.
  - apply Forall_forall. intros p Hp. apply In_firstn in Hp.
    eapply Permutation_in in Hp; [|exact P]. apply in_seq in Hp. lia.
  - intros p q Hp Hq Hnq.
    destruct (In_nth _ _ 0 Hp) as (i & Hi & Hpi).
    rewrite nth_firstn in Hpi. rewrite Hlen in Hi.
    assert (i < n) as Hin by lia.
    apply Nat.ltb_lt in Hin. rewrite Hin in Hpi. apply Nat.ltb_lt in Hin.
    assert (In q s) as Hqs.
    { eapply Permutation_in; [symmetry; exact P|]. apply in_seq. lia. }
    destruct (In_nth _ _ 0 Hqs) as (j & Hj & Hqj).
    assert (n <= j) as Hnj.
    { destruct (le_lt_dec n j) as [|Hlt]; [assumption|]. exfalso. apply Hnq.
      rewrite <- Hqj.
      replace (nth j s 0) with (nth j (firstn n s) 0).
      - apply nth_In. rewrite Hlen. lia.
      - rewrite nth_firstn. apply Nat.ltb_lt in Hlt. now rewrite Hlt. }
    subst p q. apply Hsorted; lia.
  - intros i j Hij Hj. rewrite Hlen in Hj. rewrite !nth_firstn.
    assert ((i <? n) = true) as -> by (apply Nat.ltb_lt; lia).
    assert ((j <? n) = true) as -> by (apply Nat.ltb_lt; lia).
    apply Hsorted; lia.
Qed.

Lemma is_top_ext (f g : nat -> Q) B n idx :
  (forall p, p < B -> Qeq (f p) (g p)) -> is_top f B n idx -> is_top g B n idx.
Proof.
  intros E (Hlen & Hnd & Hr & Htop & Hdesc). unfold is_top.
  pose proof Hr as Hr'. rewrite Forall_forall in Hr'.
  repeat split; auto.
  - intros p q Hp Hq Hnq. rewrite <- !E; auto.
  - intros i j Hij Hj. rewrite <- !E; auto.
    + apply Hr', nth_In. lia.
    + apply Hr', nth_In. lia.
Qed.

(** What the last three lines of a strategy return. *)
Lemma select_top_run (subset : list nat) (X : list Row) acq n w :
  length acq = length subset -> NoDup subset ->
  Forall (fun i => i < length X) subset ->
  exists idx query_instance,
    select_top subset X acq n w =
      (Ok (map (fun p => nth p subset 0) idx, query_instance), w) /\
    idx = firstn n (np_argsort (map Qopp acq)) /\
    is_top (fun p => nthQ p acq) (length subset) n idx /\
    NoDup (map (fun p => nth p subset 0) idx) /\
    incl (map (fun p => nth p subset 0) idx) subset /\
    rows_at X (map (fun p => nth p subset 0) idx) query_instance.
Proof.
  intros Hlen Hnd Hr.
  pose proof (argsort_top acq n) as Htop. rewrite Hlen in Htop.
  set (idx := firstn n (np_argsort (map Qopp acq))) in *.
  pose proof Htop as (Hl & Hndi & Hri & Hrest).
  destruct (np_take_total _ Hri) as [query_idx Hq].
  pose proof (np_take_map _ _ 0 Hq) as Hmap.
  assert (incl query_idx subset) as Hincl.
  { subst query_idx. intros x Hx. apply in_map_iff in Hx.
    destruct Hx as (p & <- & Hp). apply nth_In.
    rewrite Forall_forall in Hri. now apply Hri. }
  assert (Forall (fun i => i < length X) query_idx) as Hrq.
  { apply Forall_forall. intros x Hx. rewrite Forall_forall in Hr.
    apply Hr, Hincl, Hx. }
  destruct (np_take_total _ Hrq) as [query_instance Hqi].
  exists idx, query_instance. rewrite <- Hmap.
  split; [|split; [|split; [|split; [|split]]]]; auto.
  - unfold select_top. fold idx. unfold bind, lift, ret. now rewrite Hq, Hqi.
  - rewrite Hmap. now apply NoDup_map_nth.
  - now apply np_take_Ok_Forall2.
Qed.

End Primitives.

(** ** The vectorised reductions, entry by entry *)

Section Reductions.

Lemma zip_with_length (A : Type) (f : A -> A -> A) x y :
  length (zip_with f x y) = Nat.min (length x) (length y).
Proof.
  revert y. induction x as [|a x IH]; intros [|b y]; simpl; auto.
Qed.

Lemma zip_with_nth (A : Type) (f : A -> A -> A) x y d i :
  i < length x -> i < length y ->
  nth i (zip_with f x y) d = f (nth i x d) (nth i y d).
Proof.
  revert y i. induction x as [|a x IH]; intros [|b y] [|i]; simpl;
    try lia; auto.
  intros. apply IH; lia.
Qed.

Lemma fold_zip_length (A : Type) (f : A -> A -> A) n rest x :
  length x = n -> Forall (fun v => length v = n) rest ->
  length (fold_left (zip_with f) rest x) = n.
Proof.
  intros Hx Hr. revert x Hx. induction Hr as [|v rest Hv _ IH]; intros x Hx; simpl.
  - exact Hx.
  - apply IH. rewrite zip_with_length. lia.
Qed.

Lemma fold_zip_nth (A : Type) (f : A -> A -> A) d n rest x i :
  length x = n -> Forall (fun v => length v = n) rest -> i < n ->
  nth i (fold_left (zip_with f) rest x) d =
  fold_left f (map (fun v => nth i v d) rest) (nth i x d).
Proof.
  intros Hx Hr Hi. revert x Hx.
  induction Hr as [|v rest Hv _ IH]; intros x Hx; simpl.
  - reflexivity.
  - rewrite IH.
    + rewrite zip_with_nth; [reflexivity|lia|lia].
    + rewrite zip_with_length. lia.
Qed.

Lemma fold_left_Qsum l x : Qeq (fold_left Qplus l x) (x + Qsum l).
Proof.
  revert x. induction l as [|y l IH]; intros x; simpl.
  - ring.
  - rewrite IH. ring.
Qed.

Lemma Qsum_ext (A : Type) (f g : A -> Q) l :
  (forall x, In x l -> Qeq (f x) (g x)) -> Qeq (Qsum (map f l)) (Qsum (map g l)).
Proof.
  induction l as [|x l IH]; intros H; simpl.
  - reflexivity.
  - rewrite (H x), IH; [reflexivity| |now left].
    intros y Hy. apply H. now right.
Qed.

Lemma Qsum_opp (A : Type) (f : A -> Q) l :
  Qeq (Qsum (map (fun x => - f x) l)) (- Qsum (map f l)).
Proof.
  induction l as [|x l IH]; simpl.
  - reflexivity.
  - rewrite IH. ring.
Qed.

Lemma list_as_map_seq (A : Type) (l : list A) d :
  l = map (fun c => nth c l d) (seq 0 (length l)).
Proof.
  apply nth_ext with (d := d) (d' := d).
  - now rewrite length_map, length_seq.
  - intros n Hn.
    rewrite (nth_indep (map (fun c => nth c l d) (seq 0 (length l))) d (nth 0 l d))
      by now rewrite length_map, length_seq.
    rewrite (map_nth (fun c => nth c l d) (seq 0 (length l)) 0 n).
    now rewrite seq_nth.
Qed.

Lemma row_length B C (S : list (list Q)) i :
  matrix_shape B C S -> i < B -> length (nth i S []) = C.
Proof.
  intros [HB HC] Hi. rewrite Forall_forall in HC. apply HC, nth_In. lia.
Qed.

Lemma mat_map_entry B C f (S : list (list Q)) i c :
  matrix_shape B C S -> i < B -> c < C ->
  entry (mat_map f S) i c = f (entry S i c).
Proof.
  intros HS Hi Hc. pose proof (row_length HS Hi) as Hrow. destruct HS as [HB _].
  unfold entry, mat_map, nthQ.
  rewrite (nth_indep _ [] (map f [])) by (rewrite length_map; lia).
  rewrite map_nth.
  rewrite (nth_indep _ 0%Q (f 0%Q)) by (rewrite length_map; lia).
  apply map_nth.
Qed.

Lemma mat_map_shape B C f (S : list (list Q)) :
  matrix_shape B C S -> matrix_shape B C (mat_map f S).
Proof.
  intros [HB HC]. split.
  - unfold mat_map. now rewrite length_map.
  - unfold mat_map. apply Forall_forall. intros r Hr.
    apply in_map_iff in Hr. destruct Hr as (r0 & <- & Hr0).
    rewrite length_map. rewrite Forall_forall in HC. now apply HC.
Qed.

(** Sum of the samples: shape and entries. *)
Lemma fold_mat_add_shape B C rest S0 :
  matrix_shape B C S0 -> Forall (matrix_shape B C) rest ->
  matrix_shape B C (fold_left mat_add rest S0).
Proof.
  intros H0 Hr. revert S0 H0.
  induction Hr as [|S rest HS _ IH]; intros S0 H0; simpl; [assumption|].
  apply IH. destruct H0 as [HB0 HC0], HS as [HB HC]. split.
  - unfold mat_add. rewrite zip_with_length. lia.
  - apply Forall_forall. intros r Hr.
    destruct (In_nth _ _ [] Hr) as (i & Hi & <-).
    unfold mat_add in *. rewrite zip_with_length in Hi.
    rewrite zip_with_nth by lia. unfold vec_add. rewrite zip_with_length.
    rewrite Forall_forall in HC0, HC.
    rewrite (HC0 (nth i S0 [])) by (apply nth_In; lia).
    rewrite (HC (nth i S [])) by (apply nth_In; lia). lia.
Qed.

Lemma fold_mat_add_entry B C rest S0 i c :
  matrix_shape B C S0 -> Forall (matrix_shape B C) rest -> i < B -> c < C ->
  entry (fold_left mat_add rest S0) i c =
  fold_left Qplus (map (fun S => entry S i c) rest) (entry S0 i c).
Proof.
  intros H0 Hr Hi Hc. unfold entry, mat_add.
  rewrite (fold_zip_nth vec_add [] (n := B)); [|apply H0| |assumption].
  - unfold nthQ, vec_add.
    rewrite (fold_zip_nth Qplus 0%Q (n := C)); [|now apply (row_length H0)| |assumption].
    + now rewrite map_map.
    + apply Forall_forall. intros r Hin. apply in_map_iff in Hin.
      destruct Hin as (S & <- & HS). rewrite Forall_forall in Hr.
      now apply (row_length (Hr S HS)).
  - eapply Forall_impl; [|exact Hr]. now intros S [HB _].
Qed.

End Reductions.

(** ** The acquisition arrays against the formulas *)

Section AcquisitionFormulas.
Context {L : Libs} {OK : LibsOk L}.

Lemma plogp_proper x y : Qeq x y -> Qeq (plogp x) (plogp y).
Proof.
  intros E. unfold plogp.
  rewrite (@log_proper L OK (x + eps)%Q (y + eps)%Q) by now rewrite E.
  now rewrite E.
Qed.

Lemma nthQ_map_rows (f : list Q -> Q) (m : list (list Q)) i :
  i < length m -> nthQ i (map f m) = f (nth i m []).
Proof.
  intros Hi. unfold nthQ.
  rewrite (nth_indep (map f m) 0%Q (f [])) by now rewrite length_map.
  apply map_nth.
Qed.

Lemma nthQ_map (f : Q -> Q) (v : list Q) i :
  i < length v -> nthQ i (map f v) = f (nthQ i v).
Proof.
  intros Hi. unfold nthQ.
  rewrite (nth_indep (map f v) 0%Q (f 0%Q)) by now rewrite length_map.
  apply map_nth.
Qed.

(** One entry of [np.sum(S * np.log(S + 1e-10), axis=-1)]. *)
Lemma sum_plogp_entry B C (S : list (list Q)) i :
  matrix_shape B C S -> i < B ->
  Qeq (nthQ i (np_sum_last (mat_map plogp S)))
      (Qsum (map (fun c => plogp (entry S i c)) (seq 0 C))).
Proof.
  intros HS Hi. pose proof (row_length HS Hi) as Hrow.
  unfold np_sum_last.
  rewrite nthQ_map_rows
    by (unfold mat_map; rewrite length_map; destruct HS; lia).
  rewrite fold_left_Qsum, Qplus_0_l.
  unfold mat_map.
  rewrite (nth_indep (map (map plogp) S) [] (map plogp []))
    by (rewrite length_map; destruct HS; lia).
  rewrite map_nth.
  rewrite (list_as_map_seq (nth i S []) 0%Q) at 1.
  rewrite map_map, Hrow. reflexivity.
Qed.

Lemma sum_plogp_length B C (S : list (list Q)) :
  matrix_shape B C S -> length (np_sum_last (mat_map plogp S)) = B.
Proof.
  intros [HB _]. unfold np_sum_last, mat_map. now rewrite !length_map.
Qed.

Lemma np_mean0_3d_run T B C MC :
  tensor_shape T B C MC -> 1 <= T ->
  exists P, np_mean0_3d MC = Ok P /\ matrix_shape B C P /\
            forall i c, i < B -> c < C -> Qeq (entry P i c) (p_bar MC i c).
Proof.
  intros [HT Hshape] H1. destruct MC as [|S0 rest]; [simpl in HT; lia|].
  inversion Hshape as [|? ? H0 Hr]; subst.
  pose proof (fold_mat_add_shape H0 Hr) as Hsum.
  unfold np_mean0_3d. simpl add_reduce0. cbv iota. eexists. split; [reflexivity|].
  split; [now apply mat_map_shape|].
  intros i c Hi Hc. rewrite (mat_map_entry _ Hsum Hi Hc).
  rewrite (fold_mat_add_entry H0 Hr Hi Hc), fold_left_Qsum.
  unfold p_bar. reflexivity.
Qed.

(** max_entropy: each score is the entropy of the mean distribution. *)
Lemma max_entropy_acquisition_formula T B C MC :
  tensor_shape T B C MC -> 1 <= T ->
  exists acq, max_entropy_acquisition MC = Ok acq /\ length acq = B /\
    forall i, i < B -> Qeq (nthQ i acq) (predictive_entropy MC C i).
Proof.
  intros Hsh H1. destruct (np_mean0_3d_run Hsh H1) as (P & HP & HsP & HE).
  unfold max_entropy_acquisition. rewrite HP. eexists. split; [reflexivity|].
  unfold neg_sum_plogp. split.
  - rewrite length_map. now apply (sum_plogp_length HsP).
  - intros i Hi. rewrite nthQ_opp, (sum_plogp_entry HsP Hi).
    unfold predictive_entropy. apply Qopp_comp. apply Qsum_ext.
    intros c Hc. apply in_seq in Hc.
    change (Qeq (plogp (entry P i c)) (plogp (p_bar MC i c))).
    apply plogp_proper, HE; lia.
Qed.

(** bald: each score is the entropy of the mean minus the mean entropy. *)
Lemma bald_acquisition_formula T B C MC :
  tensor_shape T B C MC -> 1 <= T ->
  exists acq, bald_acquisition MC = Ok acq /\ length acq = B /\
    forall i, i < B -> Qeq (nthQ i acq) (mutual_information MC C i).
Proof.
  intros Hsh H1. destruct (np_mean0_3d_run Hsh H1) as (P & HP & HsP & HE).
  destruct (max_entropy_acquisition_formula Hsh H1) as (ent & Hent & Hlent & Hfe).
  unfold max_entropy_acquisition in Hent. rewrite HP in Hent.
  inversion Hent; subst ent; clear Hent.
  destruct Hsh as [HT Hshape].
  set (g := fun S : list (list Q) => np_sum_last (mat_map plogp S)).
  assert (Forall (fun v => length v = B) (map g MC)) as Hlens.
  { apply Forall_forall. intros v Hv. apply in_map_iff in Hv.
    destruct Hv as (S & <- & HS). rewrite Forall_forall in Hshape.
    apply (sum_plogp_length (Hshape S HS)). }
  unfold bald_acquisition. fold g.
  destruct MC as [|S0 rest]; [simpl in HT; lia|].
  unfold np_mean0_2d. simpl add_reduce0. cbv iota. rewrite HP.
  eexists. split; [reflexivity|].
  simpl in Hlens. apply Forall_cons_iff in Hlens. destruct Hlens as [Hl0 Hlr].
  pose proof (@fold_zip_length Q Qplus B (map g rest) (g S0) Hl0 Hlr) as Hfl. fold vec_add in Hfl.
  split.
  - rewrite zip_with_length, !length_map, Hlent, Hfl. apply Nat.min_id.
  - intros i Hi.
    unfold nthQ at 1. rewrite zip_with_nth by (rewrite ?length_map; lia).
    fold (nthQ i (neg_sum_plogp P)). rewrite (Hfe i Hi).
    unfold mutual_information. unfold Qminus. apply Qplus_comp; [reflexivity|].
    apply Qopp_comp.
    change (nth i ?l 0%Q) with (nthQ i l).
    rewrite nthQ_opp, nthQ_map by lia.
    unfold vec_add, nthQ at 1.
    rewrite (@fold_zip_nth Q Qplus 0%Q B (map g rest) (g S0) i Hl0 Hlr Hi), fold_left_Qsum.
    rewrite map_map.
    change (nth i (g S0) 0%Q + Qsum (map (fun S => nth i (g S) 0%Q) rest))%Q
      with (Qsum (map (fun S => nthQ i (g S)) (S0 :: rest))).
    rewrite (Qsum_ext (fun S => nthQ i (g S))
                      (fun S => - sample_entropy (L := L) C i S)%Q).
    + rewrite Qsum_opp. simpl length. rewrite length_map. unfold Qdiv. ring.
    + intros S HS. rewrite Forall_forall in Hshape.
      unfold g. rewrite (sum_plogp_entry (Hshape S HS) Hi).
      unfold sample_entropy. rewrite Qopp_involutive. reflexivity.
Qed.

End AcquisitionFormulas.

(** ** The query strategies *)

Section StrategyFacts.
Context {L : Libs} {OK : LibsOk L}.

(** The first lines shared by max_entropy, var_ratio and bald: the draw of
    the candidates, then T forward passes with dropout on. *)
Lemma draw_and_sample learner (X : list Row) T w :
  2000 <= length X ->
  exists random_subset w1 MC_samples w',
    random_choice (length X) 2000 w = (Ok random_subset, w1) /\
    length random_subset = 2000 /\ NoDup random_subset /\
    Forall (fun i => i < length X) random_subset /\
    MC_sampling learner X random_subset T w1 = (Ok MC_samples, w') /\
    tensor_shape T 2000 (n_classes learner) MC_samples /\
    w_trace w' = w_trace w ++ RandomChoice (length X) 2000
                           :: repeat (ForwardPass 2000 true) T.
Proof.
  intros HX.
  destruct (@random_choice_total L OK (length X) 2000 w) as (s & w1 & Hc); [lia|lia|].
  destruct (random_choice_Ok _ _ _ Hc) as (Hl & Hnd & Hr & Htr).
  destruct (MC_sampling_run learner X T w1 Hr) as (MC & w' & Hm & Hsh & Htr').
  exists s, w1, MC, w'. rewrite Hl in Hsh, Htr'.
  repeat (split; [assumption|]).
  rewrite Htr', Htr, <- app_assoc. reflexivity.
Qed.

Lemma small_pool_raises (X : list Row) w
  (k : list nat -> M (list nat * list Row)) :
  length X < 2000 ->
  fst ((random_subset <- random_choice (length X) 2000 ;; k random_subset) w)
  = Raise ValueError.
Proof.
  intros HX. destruct (@random_choice_small L OK _ _ w HX) as (g & Hc).
  erewrite bind_Raise; [|exact Hc]. reflexivity.
Qed.

Lemma select_top_Ok_inv (random_subset : list nat) (X : list Row) acq n w qi qx w' :
  select_top random_subset X acq n w = (Ok (qi, qx), w') ->
  w' = w /\ incl qi random_subset /\ rows_at X qi qx.
Proof.
  unfold select_top. intros H. run_inv H.
  inversion H; subst v v0; clear H.
  apply lift_Ok_inv in Hrun, Hrun0.
  destruct Hrun as [Hq ->], Hrun0 as [Hx ->].
  split; [reflexivity|]. split.
  - intros i Hi. apply np_take_Ok_Forall2 in Hq.
    clear - Hq Hi. induction Hq as [|p x idx xs Hp _ IH]; [contradiction|].
    destruct Hi as [<-|Hi]; [eapply nth_error_In; eauto|auto].
  - now apply np_take_Ok_Forall2.
Qed.

Lemma max_entropy_run learner (X : list Row) n_instances T w :
  2000 <= length X -> 1 <= T ->
  exists random_subset w1 MC_samples w' idx query_instance,
    random_choice (length X) 2000 w = (Ok random_subset, w1) /\
    length random_subset = 2000 /\ NoDup random_subset /\
    Forall (fun i => i < length X) random_subset /\
    MC_sampling learner X random_subset T w1 = (Ok MC_samples, w') /\
    tensor_shape T 2000 (n_classes learner) MC_samples /\
    w_trace w' = w_trace w ++ RandomChoice (length X) 2000
                           :: repeat (ForwardPass 2000 true) T /\
    max_entropy learner X n_instances T w =
      (Ok (map (fun p => nth p random_subset 0) idx, query_instance), w') /\
    is_top (predictive_entropy MC_samples (n_classes learner)) 2000 n_instances idx /\
    NoDup (map (fun p => nth p random_subset 0) idx) /\
    incl (map (fun p => nth p random_subset 0) idx) random_subset /\
    rows_at X (map (fun p => nth p random_subset 0) idx) query_instance.
Proof.
  intros HX HT.
  destruct (draw_and_sample learner X T w HX)
    as (s & w1 & MC & w' & Hc & Hl & Hnd & Hr & Hm & Hsh & Htr).
  destruct (max_entropy_acquisition_formula Hsh HT) as (acq & Ha & Hla & Hf).
  destruct (@select_top_run L OK s X acq n_instances w')
    as (idx & qx & Hsel & _ & Htop & Hndq & Hincl & Hrows); [lia|assumption|assumption|].
  exists s, w1, MC, w', idx, qx.
  repeat (split; [assumption|]).
  split; [|split; [|auto]].
  - unfold max_entropy. erewrite bind_Ok; [|exact Hc].
    erewrite bind_Ok; [|exact Hm]. unfold bind at 1, lift. rewrite Ha. exact Hsel.
  - rewrite Hl in Htop. eapply is_top_ext; [|exact Htop]. exact Hf.
Qed.

Lemma bald_run learner (X : list Row) n_instances T w :
  2000 <= length X -> 1 <= T ->
  exists random_subset w1 MC_samples w' idx query_instance,
    random_choice (length X) 2000 w = (Ok random_subset, w1) /\
    length random_subset = 2000 /\ NoDup random_subset /\
    Forall (fun i => i < length X) random_subset /\
    MC_sampling learner X random_subset T w1 = (Ok MC_samples, w') /\
    tensor_shape T 2000 (n_classes learner) MC_samples /\
    w_trace w' = w_trace w ++ RandomChoice (length X) 2000
                           :: repeat (ForwardPass 2000 true) T /\
    bald learner X n_instances T w =
      (Ok (map (fun p => nth p random_subset 0) idx, query_instance), w') /\
    is_top (mutual_information MC_samples (n_classes learner)) 2000 n_instances idx /\
    NoDup (map (fun p => nth p random_subset 0) idx) /\
    incl (map (fun p => nth p random_subset 0) idx) random_subset /\
    rows_at X (map (fun p => nth p random_subset 0) idx) query_instance.
Proof.
  intros HX HT.
  destruct (draw_and_sample learner X T w HX)
    as (s & w1 & MC & w' & Hc & Hl & Hnd & Hr & Hm & Hsh & Htr).
  destruct (bald_acquisition_formula Hsh HT) as (acq & Ha & Hla & Hf).
  destruct (@select_top_run L OK s X acq n_instances w')
    as (idx & qx & Hsel & _ & Htop & Hndq & Hincl & Hrows); [lia|assumption|assumption|].
  exists s, w1, MC, w', idx, qx.
  repeat (split; [assumption|]).
  split; [|split; [|auto]].
  - unfold bald. erewrite bind_Ok; [|exact Hc].
    erewrite bind_Ok; [|exact Hm]. unfold bind at 1, lift. rewrite Ha. exact Hsel.
  - rewrite Hl in Htop. eapply is_top_ext; [|exact Htop]. exact Hf.
Qed.

(** A run that returns has drawn 2000 distinct rows, so the pool has them. *)
Lemma drawn_subset_fits n k w l w' :
  random_choice n k w = (Ok l, w') -> k <= n.
Proof.
  intros H. destruct (random_choice_Ok _ _ _ H) as (Hl & Hnd & Hr & _).
  assert (incl l (seq 0 n)) as Hincl.
  { intros i Hi. rewrite Forall_forall in Hr. apply in_seq.
    specialize (Hr i Hi). lia. }
  pose proof (NoDup_incl_length Hnd Hincl) as Hle.
  rewrite length_seq in Hle. lia.
Qed.

End StrategyFacts.

Section StrategyClaims.
Context {L : Libs} {OK : LibsOk L}.

(** C1. On a pool of at least 2000 rows and with T >= 1, max_entropy draws
    2000 distinct candidates, samples a tensor of shape [T, 2000, classes],
    scores candidate i with the predictive entropy of the mean of its T
    sampled distributions, - sum_c p_bar(i,c) * log(p_bar(i,c) + 1e-10), and
    returns the candidates with the n_instances largest scores, highest
    first, together with their rows of X. *)
Theorem max_entropy_selects_top_predictive_entropy
  learner (X : list Row) n_instances T w :
  2000 <= length X -> 1 <= T ->
  exists random_subset w1 MC_samples w' acquisition idx query_instance,
    random_choice (length X) 2000 w = (Ok random_subset, w1) /\
    MC_sampling learner X random_subset T w1 = (Ok MC_samples, w') /\
    tensor_shape T 2000 (n_classes learner) MC_samples /\
    max_entropy_acquisition MC_samples = Ok acquisition /\
    (forall i, i < 2000 ->
       Qeq (nthQ i acquisition)
           (predictive_entropy MC_samples (n_classes learner) i)) /\
    max_entropy learner X n_instances T w =
      (Ok (map (fun p => nth p random_subset 0) idx, query_instance), w') /\
    is_top (predictive_entropy MC_samples (n_classes learner)) 2000 n_instances idx /\
    rows_at X (map (fun p => nth p random_subset 0) idx) query_instance.
Proof.
  intros HX HT.
  destruct (max_entropy_run learner X n_instances w HX HT)
    as (s & w1 & MC & w' & idx & qx & Hc & _ & _ & _ & Hm & Hsh & _ & Hrun
        & Htop & _ & _ & Hrows).
  destruct (max_entropy_acquisition_formula Hsh HT) as (acq & Ha & _ & Hf).
  exists s, w1, MC, w', acq, idx, qx. repeat (split; [assumption|]). assumption.
Qed.

(** C2. On a pool of at least 2000 rows and with T >= 1, bald scores
    candidate i with the entropy of the mean of its T sampled distributions
    minus the mean of the T per-sample entropies (every logarithm taken of
    p + 1e-10), and returns the candidates with the n_instances largest
    scores, highest first, together with their rows of X. *)
Theorem bald_selects_top_mutual_information
  learner (X : list Row) n_instances T w :
  2000 <= length X -> 1 <= T ->
  exists random_subset w1 MC_samples w' acquisition idx query_instance,
    random_choice (length X) 2000 w = (Ok random_subset, w1) /\
    MC_sampling learner X random_subset T w1 = (Ok MC_samples, w') /\
    tensor_shape T 2000 (n_classes learner) MC_samples /\
    bald_acquisition MC_samples = Ok acquisition /\
    (forall i, i < 2000 ->
       Qeq (nthQ i acquisition)
           (mutual_information MC_samples (n_classes learner) i)) /\
    bald learner X n_instances T w =
      (Ok (map (fun p => nth p random_subset 0) idx, query_instance), w') /\
    is_top (mutual_information MC_samples (n_classes learner)) 2000 n_instances idx /\
    rows_at X (map (fun p => nth p random_subset 0) idx) query_instance.
Proof.
  intros HX HT.
  destruct (bald_run learner X n_instances w HX HT)
    as (s & w1 & MC & w' & idx & qx & Hc & _ & _ & _ & Hm & Hsh & _ & Hrun
        & Htop & _ & _ & Hrows).
  destruct (bald_acquisition_formula Hsh HT) as (acq & Ha & _ & Hf).
  exists s, w1, MC, w', acq, idx, qx. repeat (split; [assumption|]). assumption.
Qed.

(** C3. In the namespace of the notebook var_ratio never returns: on a pool
    of at least 2000 rows it stops with NameError at the unbound name [a],
    on a smaller pool with ValueError at the draw. *)
Theorem var_ratio_never_returns learner (X : list Row) n_instances T w :
  fst (var_ratio notebook_globals learner X n_instances T w) =
  if 2000 <=? length X then Raise (NameError "a") else Raise ValueError.
Proof.
  destruct (2000 <=? length X) eqn:E.
  - apply Nat.leb_le in E.
    destruct (draw_and_sample learner X T w E)
      as (s & w1 & MC & w' & Hc & _ & _ & _ & Hm & _).
    unfold var_ratio. erewrite bind_Ok; [|exact Hc].
    erewrite bind_Ok; [|exact Hm]. reflexivity.
  - apply Nat.leb_gt in E. unfold var_ratio. now apply small_pool_raises.
Qed.

Lemma strategy_tail_ignores_world globals (s : list nat) (X : list Row) n w1 w2 :
  let tail :=
    (a <- lift (lookup_a globals) ;;
     preds <- lift (mapR (mapR np_argmax) a) ;;
     _ <- lift (lookup_stats globals) ;;
     select_top s X (var_ratio_acquisition preds) n) in
  fst (tail w1) = fst (tail w2).
Proof.
  unfold bind, lift. destruct (lookup_a globals) as [a|]; [|reflexivity].
  destruct (mapR (mapR np_argmax) a) as [preds|]; [|reflexivity].
  destruct (lookup_stats globals); [|reflexivity].
  unfold select_top, bind, lift, ret.
  destruct (np_take s _) as [qi|]; [|reflexivity].
  destruct (np_take X qi); reflexivity.
Qed.

(** C6. var_ratio makes its T forward passes with the learning phase on and
    then never reads the sampled tensor: in the namespace of the notebook it
    stops with NameError right after the passes, and under any namespace its
    outcome is the same for every two networks. *)
Theorem var_ratio_ignores_the_samples
  globals learner1 learner2 (X : list Row) n_instances T w :
  (2000 <= length X ->
   exists g, var_ratio notebook_globals learner1 X n_instances T w =
     (Raise (NameError "a"),
      World g (w_trace w ++ RandomChoice (length X) 2000
                         :: repeat (ForwardPass 2000 true) T))) /\
  fst (var_ratio globals learner1 X n_instances T w) =
  fst (var_ratio globals learner2 X n_instances T w).
Proof.
  split.
  - intros HX.
    destruct (draw_and_sample learner1 X T w HX)
      as (s & w1 & MC & w' & Hc & _ & _ & _ & Hm & _ & Htr).
    exists (w_rng w'). unfold var_ratio. erewrite bind_Ok; [|exact Hc].
    erewrite bind_Ok; [|exact Hm]. unfold bind, lift. simpl.
    destruct w' as [g tr]. simpl in *. now rewrite Htr.
  - destruct (le_lt_dec 2000 (length X)) as [HX|HX].
    + destruct (draw_and_sample learner1 X T w HX)
        as (s & w1 & MC1 & w1' & Hc & _ & _ & _ & Hm1 & _).
      destruct (draw_and_sample learner2 X T w HX)
        as (s2 & w2 & MC2 & w2' & Hc2 & _ & _ & _ & Hm2 & _).
      rewrite Hc in Hc2. inversion Hc2; subst s2 w2; clear Hc2.
      assert (forall learner MC w',
                MC_sampling learner X s T w1 = (Ok MC, w') ->
                var_ratio globals learner X n_instances T w =
                (a <- lift (lookup_a globals) ;;
                 preds <- lift (mapR (mapR np_argmax) a) ;;
                 _ <- lift (lookup_stats globals) ;;
                 select_top s X (var_ratio_acquisition preds) n_instances) w')
        as Hside.
      { intros learner MC w' Hm. unfold var_ratio.
        erewrite bind_Ok; [|exact Hc]. erewrite bind_Ok; [|exact Hm].
        reflexivity. }
      rewrite (Hside _ _ _ Hm1), (Hside _ _ _ Hm2).
      apply strategy_tail_ignores_world.
    + unfold var_ratio. now rewrite !small_pool_raises.
Qed.

Lemma strategy_Ok_draw (s : list nat -> M (list nat * list Row)) (X : list Row) w qi qx :
  (forall random_subset w1 w',
     s random_subset w1 = (Ok (qi, qx), w') -> incl qi random_subset) ->
  fst ((random_subset <- random_choice (length X) 2000 ;; s random_subset) w)
    = Ok (qi, qx) ->
  exists random_subset w1,
    random_choice (length X) 2000 w = (Ok random_subset, w1) /\
    length random_subset = 2000 /\ NoDup random_subset /\
    Forall (fun i => i < length X) random_subset /\
    incl qi random_subset /\ 2000 <= length X.
Proof.
  intros Hs H.
  destruct ((random_subset <- random_choice (length X) 2000 ;; s random_subset) w)
    as [r w'] eqn:E. simpl in H. subst r.
  apply bind_Ok_inv in E. destruct E as (sub & w1 & Hc & Hrest).
  destruct (random_choice_Ok _ _ _ Hc) as (Hl & Hnd & Hr & _).
  exists sub, w1. repeat (split; [assumption|]). split.
  - eapply Hs; eauto.
  - eapply drawn_subset_fits; eauto.
Qed.

(** C8. max_entropy, var_ratio and bald start by drawing 2000 distinct
    positions of the pool; whatever they return lies among the drawn
    positions, a pool of fewer than 2000 rows makes each of them stop with
    ValueError, and uniform stops with ValueError when the pool has fewer
    than n_instances rows. *)
Theorem uncertainty_strategies_need_2000_rows
  globals learner (X : list Row) n_instances T w :
  let runs := [max_entropy learner X n_instances T w;
               var_ratio globals learner X n_instances T w;
               bald learner X n_instances T w] in
  (length X < 2000 -> Forall (fun r => fst r = Raise ValueError) runs) /\
  Forall (fun r => forall query_idx query_instance,
            fst r = Ok (query_idx, query_instance) ->
            exists random_subset w1,
              random_choice (length X) 2000 w = (Ok random_subset, w1) /\
              length random_subset = 2000 /\ NoDup random_subset /\
              Forall (fun i => i < length X) random_subset /\
              incl query_idx random_subset /\ 2000 <= length X) runs /\
  (length X < n_instances ->
   fst (uniform learner X n_instances w) = Raise ValueError).
Proof.
  split; [|split].
  - intros HX. repeat constructor; now apply small_pool_raises.
  - repeat constructor; intros qi qx; apply strategy_Ok_draw;
      intros s w1 w' H; run_inv H; eapply select_top_Ok_inv; eauto.
  - intros HX. rewrite uniform_unfold.
    destruct (@random_choice_small L OK _ _ w HX) as (g & Hc).
    erewrite bind_Raise; [|exact Hc]. reflexivity.
Qed.

(** C10, as the code has it. When uniform, max_entropy (T >= 1) or bald
    (T >= 1) returns, query_instance is X[query_idx] row for row and the
    indices are pairwise distinct and valid for X; uniform returns exactly
    n_instances of them, max_entropy and bald return min(n_instances, 2000). *)
Theorem query_result_is_consistent
  learner (X : list Row) n_instances T w query_idx query_instance w' :
  1 <= T ->
  (uniform learner X n_instances w = (Ok (query_idx, query_instance), w') ->
   rows_at X query_idx query_instance /\ NoDup query_idx /\
   Forall (fun i => i < length X) query_idx /\
   length query_idx = n_instances) /\
  (max_entropy learner X n_instances T w = (Ok (query_idx, query_instance), w')
   \/ bald learner X n_instances T w = (Ok (query_idx, query_instance), w') ->
   rows_at X query_idx query_instance /\ NoDup query_idx /\
   Forall (fun i => i < length X) query_idx /\
   length query_idx = Nat.min n_instances 2000).
Proof.
  intros HT. split.
  - rewrite uniform_unfold. intros H. run_inv H. inversion H; subst v v0; clear H.
    apply lift_Ok_inv in Hrun0. destruct Hrun0 as [Hx _].
    destruct (random_choice_Ok _ _ _ Hrun) as (Hl & Hnd & Hr & _).
    repeat split; auto. now apply np_take_Ok_Forall2.
  - intros H.
    assert (2000 <= length X) as HX.
    { destruct H as [H|H]; [unfold max_entropy in H|unfold bald in H];
        apply bind_Ok_inv in H; destruct H as (s & w1 & Hc & _);
        eapply drawn_subset_fits; eauto. }
    assert (exists random_subset idx,
              query_idx = map (fun p => nth p random_subset 0) idx /\
              length idx = Nat.min n_instances 2000 /\
              Forall (fun i => i < length X) random_subset /\
              NoDup query_idx /\ incl query_idx random_subset /\
              rows_at X query_idx query_instance) as (s & idx & Hq & Hl & Hr & Hnd & Hincl & Hrows).
    { destruct H as [H|H].
      - destruct (max_entropy_run learner X n_instances w HX HT)
          as (s & w1 & MC & w2 & idx & qx & _ & _ & _ & Hr & _ & _ & _ & Hrun
              & Htop & Hnd & Hincl & Hrows).
        rewrite Hrun in H. inversion H; subst. exists s, idx.
        destruct Htop as (Hl & _). auto 10.
      - destruct (bald_run learner X n_instances w HX HT)
          as (s & w1 & MC & w2 & idx & qx & _ & _ & _ & Hr & _ & _ & _ & Hrun
              & Htop & Hnd & Hincl & Hrows).
        rewrite Hrun in H. inversion H; subst. exists s, idx.
        destruct Htop as (Hl & _). auto 10. }
    repeat split; auto.
    + apply Forall_forall. intros i Hi. rewrite Forall_forall in Hr.
      apply Hr, Hincl, Hi.
    + rewrite Hq, length_map. exact Hl.
Qed.

End StrategyClaims.

(** ** Rows of an array at given positions *)

Section RowsAt.
Variable A : Type.

Lemma rows_at_all (X : list A) : rows_at X (seq 0 (length X)) X.
Proof.
  unfold rows_at.
  enough (forall pre, Forall2 (fun i x => nth_error (pre ++ X) i = Some x)
                              (seq (length pre) (length X)) X) as H
    by exact (H []).
  induction X as [|x X IH]; intros pre; simpl; constructor.
  - rewrite nth_error_app2 by lia. now rewrite Nat.sub_diag.
  - specialize (IH (pre ++ [x])). rewrite <- app_assoc in IH. simpl in IH.
    rewrite length_app in IH. simpl in IH.
    now rewrite Nat.add_1_r in IH.
Qed.

Lemma rows_at_delete_from (pre X : list A) obj :
  Forall2 (fun i x => nth_error (pre ++ X) i = Some x)
          (filter (kept obj) (seq (length pre) (length X)))
          (delete_from (length pre) X obj).
Proof.
  revert pre. induction X as [|x X IH]; intros pre; simpl; [constructor|].
  specialize (IH (pre ++ [x])). rewrite <- app_assoc in IH. simpl in IH.
  rewrite length_app in IH. simpl in IH. rewrite Nat.add_1_r in IH.
  destruct (kept obj (length pre)); [|exact IH].
  constructor; [|exact IH].
  rewrite nth_error_app2 by lia. now rewrite Nat.sub_diag.
Qed.

(** The rows left by [np.delete] are those at the positions not deleted. *)
Lemma rows_at_delete (X : list A) obj :
  rows_at X (filter (kept obj) (seq 0 (length X))) (np_delete X obj).
Proof. rewrite np_delete_eq. exact (rows_at_delete_from [] X obj). Qed.

Lemma rows_at_nth_error (X : list A) ps Y q y :
  rows_at X ps Y -> nth_error Y q = Some y ->
  q < length ps /\ nth_error X (nth q ps 0) = Some y.
Proof.
  intros H. revert q. induction H as [|p x ps Y Hp _ IH]; intros q Hq.
  - destruct q; discriminate.
  - destruct q as [|q]; simpl in *.
    + split; [lia|congruence].
    + destruct (IH q Hq). split; [lia|assumption].
Qed.

Lemma rows_at_compose (X Y Z : list A) ps qs :
  rows_at X ps Y -> rows_at Y qs Z ->
  rows_at X (map (fun q => nth q ps 0) qs) Z.
Proof.
  intros HXY HYZ. induction HYZ as [|q z qs Z Hq _ IH]; simpl; constructor.
  - now destruct (rows_at_nth_error q HXY Hq).
  - exact IH.
Qed.

Lemma rows_at_positions_lt (X Y : list A) ps qs Z :
  rows_at X ps Y -> rows_at Y qs Z -> Forall (fun q => q < length ps) qs.
Proof.
  intros HXY HYZ. induction HYZ as [|q z qs Z Hq _ IH]; constructor; auto.
  now destruct (rows_at_nth_error q HXY Hq).
Qed.

End RowsAt.

(** ** The loop of the active-learning procedure *)

Section ProcedureFacts.
Context {L : Libs}.
Variable query_strategy : strategy.
Variables (X_test : list Row) (y_test : list (list Q)).
Variables (epochs batch_size n_instances verbose : nat).

Local Abbreviation body := (al_body query_strategy X_test y_test epochs batch_size n_instances verbose).
Local Abbreviation loop := (al_loop query_strategy X_test y_test epochs batch_size n_instances verbose).
Local Abbreviation score l := (modAL_score l X_test y_test).

Lemma al_body_Ok_inv index st w st1 w1 :
  body index st w = (Ok st1, w1) ->
  exists query_idx query_instance w0 X_new y_new,
    query_strategy (st_learner st) (st_X_pool st) n_instances w
      = (Ok (query_idx, query_instance), w0) /\
    np_take (st_X_pool st) query_idx = Ok X_new /\
    np_take (st_y_pool st) query_idx = Ok y_new /\
    st_learner st1 =
      fst (modAL_teach (st_learner st) X_new y_new epochs batch_size (w_rng w0)) /\
    st_X_pool st1 = np_delete (st_X_pool st) query_idx /\
    st_y_pool st1 = np_delete (st_y_pool st) query_idx /\
    st_perf_hist st1 = st_perf_hist st ++ [score (st_learner st1)] /\
    w_trace w1 = w_trace w0 ++ [Fit (length X_new) verbose; Score 0;
                                Print (index + 1) (score (st_learner st1))].
Proof.
  unfold al_body. intros H.
  apply bind_Ok_inv in H. destruct H as ([qi qx] & w0 & Hq & H).
  apply bind_Ok_inv in H. destruct H as (X_new & wa & HX & H).
  apply lift_Ok_inv in HX. destruct HX as [HX ->].
  apply bind_Ok_inv in H. destruct H as (y_new & wb & Hy & H).
  apply lift_Ok_inv in Hy. destruct Hy as [Hy ->].
  exists qi, qx, w0, X_new, y_new.
  unfold bind, learner_teach, learner_score, emit, ret, bind in H.
  destruct (modAL_teach (st_learner st) X_new y_new epochs batch_size (w_rng w0))
    as [l g] eqn:E.
  simpl in H. inversion H; subst; clear H. simpl.
  repeat (split; [first [assumption|reflexivity]|]).
  rewrite <- !app_assoc. reflexivity.
Qed.

Lemma al_loop_app l1 l2 st w :
  loop (l1 ++ l2) st w = (st' <- loop l1 st ;; loop l2 st') w.
Proof.
  revert st w. induction l1 as [|i l1 IH]; intros st w; simpl.
  - reflexivity.
  - unfold bind. destruct (body i st w) as [[st1|e] w1]; [|reflexivity].
    rewrite IH. reflexivity.
Qed.

Lemma al_loop_hist l st w st' w' :
  loop l st w = (Ok st', w') ->
  exists tail, st_perf_hist st' = st_perf_hist st ++ tail /\ length tail = length l.
Proof.
  revert st w. induction l as [|i l IH]; intros st w H; simpl in H.
  - apply ret_inv in H. destruct H; subst. exists []. now rewrite app_nil_r.
  - apply bind_Ok_inv in H. destruct H as (st1 & w1 & Hb & H).
    apply al_body_Ok_inv in Hb.
    destruct Hb as (? & ? & ? & ? & ? & _ & _ & _ & _ & _ & _ & Hh & _).
    destruct (IH _ _ H) as (tail & Ht & Hl).
    exists (score (st_learner st1) :: tail). split; [|simpl; now rewrite Hl].
    rewrite Ht, Hh, <- app_assoc. reflexivity.
Qed.

Lemma al_loop_last l st w st' w' :
  l <> [] -> loop l st w = (Ok st', w') ->
  exists pre, st_perf_hist st' = pre ++ [score (st_learner st')] /\
              length pre + 1 = length (st_perf_hist st) + length l.
Proof.
  revert st w. induction l as [|i l IH]; intros st w Hne H; [congruence|].
  simpl in H. apply bind_Ok_inv in H. destruct H as (st1 & w1 & Hb & H).
  apply al_body_Ok_inv in Hb.
  destruct Hb as (? & ? & ? & ? & ? & _ & _ & _ & _ & _ & _ & Hh & _).
  destruct l as [|j l].
  - simpl in H. apply ret_inv in H. destruct H; subst.
    exists (st_perf_hist st). split; [assumption|simpl; lia].
  - destruct (IH st1 w1 ltac:(discriminate) H) as (pre & Hp & Hl).
    exists pre. split; [assumption|].
    rewrite Hh, length_app in Hl. simpl in *. lia.
Qed.

(** Entry k of the history is the accuracy after the k-th iteration. *)
Lemma al_loop_history n st w st' w' k :
  loop (seq 0 n) st w = (Ok st', w') -> 1 <= k <= n ->
  exists st_k w_k,
    loop (seq 0 k) st w = (Ok st_k, w_k) /\
    nthQ (length (st_perf_hist st) + k - 1) (st_perf_hist st')
      = score (st_learner st_k).
Proof.
  intros H Hk.
  replace n with (k + (n - k)) in H by lia.
  rewrite seq_app, al_loop_app in H.
  apply bind_Ok_inv in H. destruct H as (st_k & w_k & Hk1 & Hk2).
  exists st_k, w_k. split; [assumption|].
  pose proof Hk2 as Hh. apply al_loop_hist in Hh. destruct Hh as (tail & Ht & _).
  assert (seq 0 k <> []) as Hne by (destruct k; [lia|simpl; discriminate]).
  destruct (al_loop_last st w Hne Hk1) as (pre & Hp & Hl).
  rewrite length_seq in Hl.
  rewrite Ht, Hp, <- app_assoc. unfold nthQ.
  rewrite app_nth2 by lia.
  replace (length (st_perf_hist st) + k - 1 - length pre) with 0 by lia.
  reflexivity.
Qed.

(** A pass through the body that completes is a query-and-teach iteration. *)
Lemma al_body_step index st w st1 w1 :
  body index st w = (Ok st1, w1) ->
  query_and_teach query_strategy X_test y_test epochs batch_size n_instances
                  verbose index (st, w) (st1, w1).
Proof.
  unfold al_body. intros H.
  apply bind_Ok_inv in H. destruct H as ([qi qx] & w0 & Hq & H).
  apply bind_Ok_inv in H. destruct H as (X_new & wa & HX & H).
  apply lift_Ok_inv in HX. destruct HX as [HX ->].
  apply bind_Ok_inv in H. destruct H as (y_new & wb & Hy & H).
  apply lift_Ok_inv in Hy. destruct Hy as [Hy ->].
  exists qi, qx, w0, X_new, y_new.
  apply np_take_Ok_Forall2 in HX. apply np_take_Ok_Forall2 in Hy.
  unfold bind, learner_teach, learner_score, emit, ret, bind in H.
  destruct (modAL_teach (st_learner st) X_new y_new epochs batch_size (w_rng w0))
    as [l g] eqn:E.
  simpl in H. inversion H; subst; clear H. simpl.
  repeat (split; [first [assumption|reflexivity]|]).
  rewrite <- !app_assoc. reflexivity.
Qed.

(** The states and worlds a completed loop went through, one per iteration,
    each reached from the one before by a query-and-teach iteration. *)
Lemma al_loop_chain n : forall a st w st' w',
  loop (seq a n) st w = (Ok st', w') ->
  exists rest,
    length rest = n /\
    nth_error ((st, w) :: rest) n = Some (st', w') /\
    st_perf_hist st'
      = st_perf_hist st ++ map (fun s => score (st_learner (fst s))) rest /\
    forall k before after,
      nth_error ((st, w) :: rest) k = Some before ->
      nth_error ((st, w) :: rest) (S k) = Some after ->
      query_and_teach query_strategy X_test y_test epochs batch_size n_instances
                      verbose (a + k) before after.
Proof.
  induction n as [|n IH]; intros a st w st' w' H; simpl in H.
  - apply ret_inv in H. destruct H; subst. exists []. simpl.
    rewrite app_nil_r. repeat split; try reflexivity.
    intros k before after _ Hk. destruct k; discriminate.
  - apply bind_Ok_inv in H. destruct H as (st1 & w1 & Hb & H).
    destruct (IH _ _ _ _ _ H) as (rest & Hlen & Hlast & Hh & Hchain).
    pose proof (al_body_step _ _ _ Hb) as Hstep.
    exists ((st1, w1) :: rest). split; [simpl; now rewrite Hlen|].
    split; [exact Hlast|]. split.
    + rewrite Hh. destruct Hstep as (? & ? & ? & ? & ? & _ & _ & _ & _ & _ & _ & Hp & _).
      simpl in Hp. rewrite Hp, <- app_assoc. reflexivity.
    + intros k before after Hk HSk. destruct k as [|k].
      * simpl in Hk, HSk. inversion Hk; inversion HSk; subst.
        now rewrite Nat.add_0_r.
      * replace (a + S k) with (S a + k) by lia.
        apply Hchain; assumption.
Qed.

(** Rows left in the pools after more iterations, by position of origin. *)
Lemma al_loop_pools l st w st' w' :
  length (st_X_pool st) = length (st_y_pool st) ->
  loop l st w = (Ok st', w') ->
  length (st_X_pool st') = length (st_y_pool st') /\
  exists positions,
    NoDup positions /\
    rows_at (combine (st_X_pool st) (st_y_pool st)) positions
            (combine (st_X_pool st') (st_y_pool st')).
Proof.
  revert st w. induction l as [|i l IH]; intros st w Hlen H; simpl in H.
  - apply ret_inv in H. destruct H; subst. split; [assumption|].
    exists (seq 0 (length (combine (st_X_pool st) (st_y_pool st)))).
    split; [apply seq_NoDup|apply rows_at_all].
  - apply bind_Ok_inv in H. destruct H as (st1 & w1 & Hb & H).
    apply al_body_Ok_inv in Hb.
    destruct Hb as (qi & ? & ? & ? & ? & _ & _ & _ & _ & HX & Hy & _).
    assert (length (st_X_pool st1) = length (st_y_pool st1)) as Hlen1.
    { rewrite HX, Hy. now apply np_delete_same_length. }
    destruct (IH st1 w1 Hlen1 H) as (Hlen' & ps & Hnd & Hrows).
    split; [assumption|].
    rewrite HX, Hy, np_delete_combine in Hrows.
    pose proof (rows_at_delete (combine (st_X_pool st) (st_y_pool st)) qi) as Hd.
    exists (map (fun q => nth q
              (filter (kept qi)
                 (seq 0 (length (combine (st_X_pool st) (st_y_pool st))))) 0) ps).
    split.
    + apply NoDup_map_nth; [apply NoDup_filter, seq_NoDup|assumption|].
      eapply rows_at_positions_lt; eauto.
    + eapply rows_at_compose; eauto.
Qed.

End ProcedureFacts.

Section ProcedureClaims.
Context {L : Libs}.
Variable query_strategy : strategy.
Variables (X_test : list Row) (y_test : list (list Q)).
Variables (epochs batch_size n_instances verbose : nat).

Local Abbreviation body := (al_body query_strategy X_test y_test epochs batch_size n_instances verbose).
Local Abbreviation loop := (al_loop query_strategy X_test y_test epochs batch_size n_instances verbose).
Local Abbreviation score l := (modAL_score l X_test y_test).
Local Abbreviation procedure :=
  (active_learning_procedure query_strategy X_test y_test epochs batch_size n_instances verbose).
Local Abbreviation start := (initial_state X_test y_test verbose).

Lemma procedure_unfold X_pool y_pool X_initial y_initial estimator n_queries w :
  procedure X_pool y_pool X_initial y_initial estimator n_queries w =
  (st <- loop (seq 0 n_queries)
              (fst (start X_pool y_pool X_initial y_initial estimator w)) ;;
   ret (st_perf_hist st))
    (snd (start X_pool y_pool X_initial y_initial estimator w)).
Proof.
  unfold active_learning_procedure, initial_state, new_learner, learner_score.
  unfold bind at 1 2 3, emit, ret at 1.
  destruct (ActiveLearner estimator X_initial y_initial (w_rng w)) as [l g].
  simpl. rewrite <- app_assoc. reflexivity.
Qed.

(** What a returned history holds. *)
Lemma procedure_history X_pool y_pool X_initial y_initial estimator n_queries w
  perf_hist w' :
  procedure X_pool y_pool X_initial y_initial estimator n_queries w
    = (Ok perf_hist, w') ->
  let st0 := fst (start X_pool y_pool X_initial y_initial estimator w) in
  let w0 := snd (start X_pool y_pool X_initial y_initial estimator w) in
  length perf_hist = n_queries + 1 /\
  nthQ 0 perf_hist = score (st_learner st0) /\
  forall k, 1 <= k <= n_queries ->
    exists st_k w_k, loop (seq 0 k) st0 w0 = (Ok st_k, w_k) /\
                     nthQ k perf_hist = score (st_learner st_k).
Proof.
  rewrite procedure_unfold. intros H st0 w0. fold st0 w0 in H.
  apply bind_Ok_inv in H. destruct H as (st & w1 & Hl & H).
  apply ret_inv in H. destruct H as [-> ->].
  assert (st_perf_hist st0 = [score (st_learner st0)]) as H0.
  { unfold st0, initial_state.
    now destruct (ActiveLearner estimator X_initial y_initial (w_rng w)). }
  pose proof Hl as Hh. apply al_loop_hist in Hh. destruct Hh as (tail & Ht & Hlen).
  rewrite length_seq in Hlen. split; [|split].
  - rewrite Ht, H0. simpl. lia.
  - rewrite Ht, H0. reflexivity.
  - intros k Hk. pose proof Hl as Hh. eapply al_loop_history in Hh; [|exact Hk].
    destruct Hh as (st_k & w_k & Hrun & Hn).
    exists st_k, w_k. split; [assumption|].
    rewrite H0 in Hn. simpl in Hn.
    now replace (k - 0) with k in Hn by lia.
Qed.

Lemma al_body_total index st w query_idx query_instance w0 :
  query_strategy (st_learner st) (st_X_pool st) n_instances w
    = (Ok (query_idx, query_instance), w0) ->
  Forall (fun i => i < length (st_X_pool st)) query_idx ->
  length (st_X_pool st) = length (st_y_pool st) ->
  exists st1 w1, body index st w = (Ok st1, w1).
Proof.
  intros Hq Hr Hlen. destruct (np_take_total _ Hr) as [X_new HX].
  rewrite Hlen in Hr. destruct (np_take_total _ Hr) as [y_new Hy].
  unfold al_body. erewrite bind_Ok; [|exact Hq].
  unfold bind, lift. rewrite HX, Hy. unfold learner_teach.
  destruct (modAL_teach (st_learner st) X_new y_new epochs batch_size (w_rng w0)).
  simpl. unfold ret. eauto.
Qed.

(** The loop keeps going while the pool stays large enough for the strategy. *)
Lemma al_loop_total min_pool l st w :
  strategy_ok query_strategy min_pool n_instances ->
  length (st_X_pool st) = length (st_y_pool st) ->
  min_pool + n_instances * length l <= length (st_X_pool st) + n_instances ->
  exists st' w', loop l st w = (Ok st', w').
Proof.
  intros Hok. revert st w. induction l as [|i l IH]; intros st w Hlen Hsize.
  - simpl. unfold ret. eauto.
  - simpl length in Hsize. rewrite Nat.mul_succ_r in Hsize.
    destruct (Hok (st_learner st) (st_X_pool st) w) as (qi & qx & w0 & Hq & Hr & Hd);
      [lia|].
    destruct (al_body_total i st Hq Hr Hlen) as (st1 & w1 & Hb).
    pose proof Hb as Hinv. apply al_body_Ok_inv in Hinv.
    destruct Hinv as (qi' & qx' & w0' & ? & ? & Hq' & _ & _ & _ & HX & Hy & _).
    rewrite Hq in Hq'. inversion Hq'; subst qi' qx' w0'; clear Hq'.
    pose proof (np_delete_length (st_X_pool st) Hr) as Hdl.
    destruct (IH st1 w1) as (st' & w' & Hl).
    + rewrite HX, Hy. now apply np_delete_same_length.
    + rewrite HX. lia.
    + exists st', w'. simpl. erewrite bind_Ok; [|exact Hb]. exact Hl.
Qed.

Lemma procedure_returns min_pool X_pool y_pool X_initial y_initial estimator
  n_queries w :
  strategy_ok query_strategy min_pool n_instances ->
  length X_pool = length y_pool ->
  min_pool + n_instances * n_queries <= length X_pool + n_instances ->
  exists perf_hist w',
    procedure X_pool y_pool X_initial y_initial estimator n_queries w
      = (Ok perf_hist, w').
Proof.
  intros Hok Hlen Hsize. rewrite procedure_unfold.
  assert (st_X_pool (fst (start X_pool y_pool X_initial y_initial estimator w))
          = X_pool /\
          st_y_pool (fst (start X_pool y_pool X_initial y_initial estimator w))
          = y_pool) as [HX Hy].
  { unfold initial_state.
    now destruct (ActiveLearner estimator X_initial y_initial (w_rng w)). }
  destruct (@al_loop_total min_pool (seq 0 n_queries)
              (fst (start X_pool y_pool X_initial y_initial estimator w))
              (snd (start X_pool y_pool X_initial y_initial estimator w)))
    as (st' & w' & Hl); auto.
  - now rewrite HX, Hy.
  - now rewrite HX, length_seq.
  - erewrite bind_Ok; [|exact Hl]. unfold ret. eauto.
Qed.

(** C4. When the procedure returns, its history has n_queries + 1 entries
    and there is one state per entry: the first holds the learner fitted on
    the initial labelled data and the pools as passed in, each later one is
    reached from the one before by a query-and-teach iteration, in iteration
    order, and entry k of the history is the test-set accuracy of the learner
    of state k.  The procedure returns whenever n_queries is 0; an exception
    of a later query is not caught, so it need not return otherwise. *)
Theorem perf_hist_follows_the_iterations
  X_pool y_pool X_initial y_initial estimator n_queries w :
  (n_queries = 0 ->
   exists perf_hist w',
     procedure X_pool y_pool X_initial y_initial estimator n_queries w
       = (Ok perf_hist, w')) /\
  forall perf_hist w',
    procedure X_pool y_pool X_initial y_initial estimator n_queries w
      = (Ok perf_hist, w') ->
    exists run : list (al_state * world),
      length run = n_queries + 1 /\
      length perf_hist = n_queries + 1 /\
      perf_hist = map (fun s => score (st_learner (fst s))) run /\
      (exists st0 w0,
         nth_error run 0 = Some (st0, w0) /\
         ActiveLearner estimator X_initial y_initial (w_rng w)
           = (st_learner st0, w_rng w0) /\
         st_X_pool st0 = X_pool /\ st_y_pool st0 = y_pool /\
         w_trace w0
           = w_trace w ++ [Fit (length X_initial) verbose; Score verbose]) /\
      (forall k before after,
         nth_error run k = Some before -> nth_error run (S k) = Some after ->
         query_and_teach query_strategy X_test y_test epochs batch_size
                         n_instances verbose k before after) /\
      (exists st, nth_error run n_queries = Some (st, w') /\
                  st_perf_hist st = perf_hist).
Proof.
  split.
  - intros ->. rewrite procedure_unfold. simpl. unfold bind, ret. simpl. eauto.
  - intros perf_hist w' H. rewrite procedure_unfold in H.
    apply bind_Ok_inv in H. destruct H as (st & w1 & Hl & H).
    apply ret_inv in H. destruct H as [-> ->].
    apply al_loop_chain in Hl. destruct Hl as (rest & Hlen & Hlast & Hh & Hchain).
    revert Hlast Hh Hchain. unfold initial_state.
    destruct (ActiveLearner estimator X_initial y_initial (w_rng w)) as [l g] eqn:E.
    simpl fst. simpl snd. intros Hlast Hh Hchain.
    exists ((AlState l X_pool y_pool [score l],
             World g (w_trace w ++ [Fit (length X_initial) verbose; Score verbose]))
            :: rest).
    split; [simpl; lia|]. split; [rewrite Hh; simpl; rewrite length_map; lia|].
    split; [exact Hh|]. split; [|split].
    + eexists _, _. split; [reflexivity|]. simpl. auto.
    + exact Hchain.
    + exists st. split; [exact Hlast|reflexivity].
Qed.

(** C5. An iteration that completes on paired pools deletes the indices the
    strategy returned from X_pool and y_pool alike: the pools stay of equal
    length and paired row for row, they shrink by the number of distinct
    queried indices, and whatever later iterations leave in the pools comes
    from positions that were not queried. *)
Theorem queried_rows_leave_both_pools index st w st1 w1 :
  length (st_X_pool st) = length (st_y_pool st) ->
  body index st w = (Ok st1, w1) ->
  exists query_idx query_instance w0,
    query_strategy (st_learner st) (st_X_pool st) n_instances w
      = (Ok (query_idx, query_instance), w0) /\
    st_X_pool st1 = np_delete (st_X_pool st) query_idx /\
    st_y_pool st1 = np_delete (st_y_pool st) query_idx /\
    length (st_X_pool st1) = length (st_y_pool st1) /\
    combine (st_X_pool st1) (st_y_pool st1)
      = np_delete (combine (st_X_pool st) (st_y_pool st)) query_idx /\
    length (st_X_pool st1) + length (nodup Nat.eq_dec query_idx)
      = length (st_X_pool st) /\
    forall rest st2 w2, loop rest st1 w1 = (Ok st2, w2) ->
      length (st_X_pool st2) = length (st_y_pool st2) /\
      exists positions,
        NoDup positions /\ Forall (fun p => ~ In p query_idx) positions /\
        rows_at (combine (st_X_pool st) (st_y_pool st)) positions
                (combine (st_X_pool st2) (st_y_pool st2)).
Proof.
  intros Hlen Hb. apply al_body_Ok_inv in Hb.
  destruct Hb as (qi & qx & w0 & X_new & y_new & Hq & HXn & _ & _ & HX & Hy & _).
  exists qi, qx, w0.
  assert (length (st_X_pool st1) = length (st_y_pool st1)) as Hlen1.
  { rewrite HX, Hy. now apply np_delete_same_length. }
  split; [assumption|]. split; [assumption|]. split; [assumption|].
  split; [assumption|]. split; [now rewrite HX, Hy, np_delete_combine|]. split.
  - rewrite HX. apply np_delete_length. eapply np_take_in_range; eauto.
  - intros rest st2 w2 Hl.
    pose proof Hl as Hp. apply al_loop_pools in Hp; [|exact Hlen1].
    destruct Hp as (Hlen2 & ps & Hnd & Hrows).
    split; [assumption|].
    rewrite HX, Hy, np_delete_combine in Hrows.
    set (Z := combine (st_X_pool st) (st_y_pool st)) in *.
    pose proof (rows_at_delete Z qi) as Hd.
    set (kp := filter (kept qi) (seq 0 (length Z))) in *.
    pose proof (rows_at_positions_lt Hd Hrows) as Hlt.
    exists (map (fun q => nth q kp 0) ps). split; [|split].
    + apply NoDup_map_nth; [apply NoDup_filter, seq_NoDup|assumption|assumption].
    + apply Forall_forall. intros p Hp. apply in_map_iff in Hp.
      destruct Hp as (q & <- & Hqin). rewrite Forall_forall in Hlt.
      assert (In (nth q kp 0) kp) as Hin by (apply nth_In; auto).
      apply filter_In in Hin. destruct Hin as [_ Hk]. now apply kept_true.
    + eapply rows_at_compose; eauto.
Qed.

End ProcedureClaims.

(** ** The strategies of the notebook keep the loop going *)

Section StrategiesOk.
Context {L : Libs} {OK : LibsOk L}.

Lemma uniform_ok n_instances :
  strategy_ok uniform (Nat.max n_instances 1) n_instances.
Proof.
  intros learner X w HX.
  destruct (@random_choice_total L OK (length X) n_instances w) as (qi & w' & Hc);
    [lia|lia|].
  destruct (random_choice_Ok _ _ _ Hc) as (Hl & Hnd & Hr & _).
  destruct (np_take_total _ Hr) as [qx Hx].
  exists qi, qx, w'. split; [|split].
  - rewrite uniform_unfold. erewrite bind_Ok; [|exact Hc].
    unfold bind, lift, ret. now rewrite Hx.
  - assumption.
  - rewrite nodup_fixed_point by assumption. lia.
Qed.

Lemma max_entropy_ok n_instances T :
  1 <= T ->
  strategy_ok (fun l X n => max_entropy l X n T) 2000 n_instances.
Proof.
  intros HT learner X w HX.
  destruct (max_entropy_run learner X n_instances w HX HT)
    as (s & w1 & MC & w' & idx & qx & _ & _ & _ & Hr & _ & _ & _ & Hrun
        & Htop & Hnd & Hincl & _).
  exists (map (fun p => nth p s 0) idx), qx, w'. split; [assumption|]. split.
  - apply Forall_forall. intros i Hi. rewrite Forall_forall in Hr.
    apply Hr, Hincl, Hi.
  - rewrite nodup_fixed_point by assumption. rewrite length_map.
    destruct Htop as (Hl & _). lia.
Qed.

End StrategiesOk.

(** ** The data cells *)

Section DataCells.
Context {L : Libs} {OK : LibsOk L}.

Lemma mapR_Ok_map (A B : Type) (f : A -> result B) (g : A -> B) l :
  Forall (fun x => f x = Ok (g x)) l -> mapR f l = Ok (map g l).
Proof.
  induction 1 as [|x l Hx _ IH]; simpl; [reflexivity|]. now rewrite Hx, IH.
Qed.

Lemma to_categorical_run y k :
  Forall (fun l => l < k) y -> to_categorical y k = Ok (map (one_hot k) y).
Proof.
  intros H. apply mapR_Ok_map. eapply Forall_impl; [|exact H].
  intros l Hl. apply Nat.ltb_lt in Hl. now rewrite Hl.
Qed.

Lemma one_hot_column k l c :
  c < k -> Qeq_bool (nthQ c (one_hot k l)) 1 = (c =? l).
Proof.
  intros Hc. unfold nthQ, one_hot.
  rewrite (nth_indep _ 0%Q ((fun c => if c =? l then 1%Q else 0%Q) 0))
    by now rewrite length_map, length_seq.
  rewrite (map_nth (fun c => if c =? l then 1%Q else 0%Q)), seq_nth by assumption.
  simpl. now destruct (c =? l).
Qed.

Lemma np_where_from y c s :
  c < 10 ->
  map fst (filter (fun p => Qeq_bool (nthQ c (snd p)) 1)
                  (combine (seq s (length (map (one_hot 10) y)))
                           (map (one_hot 10) y)))
  = label_positions c s y.
Proof.
  intros Hc. revert s. induction y as [|l y IH]; intros s; simpl; [reflexivity|].
  fold (one_hot 10 l). rewrite (one_hot_column l Hc).
  destruct (c =? l); simpl; now rewrite IH.
Qed.

Lemma np_where_labels y c :
  c < 10 -> np_where_col_eq1 (map (one_hot 10) y) c = label_positions c 0 y.
Proof. intros Hc. now apply np_where_from. Qed.

Lemma label_positions_In c s y p :
  In p (label_positions c s y) -> s <= p /\ nth_error y (p - s) = Some c.
Proof.
  revert s. induction y as [|l y IH]; intros s; simpl; [tauto|].
  destruct (c =? l) eqn:E.
  - intros [<-|H].
    + apply Nat.eqb_eq in E. subst. rewrite Nat.sub_diag. auto.
    + destruct (IH _ H) as [Hs Hn]. split; [lia|].
      replace (p - s) with (S (p - S s)) by lia. exact Hn.
  - intros H. destruct (IH _ H) as [Hs Hn]. split; [lia|].
    replace (p - s) with (S (p - S s)) by lia. exact Hn.
Qed.

Lemma label_positions_NoDup c s y : NoDup (label_positions c s y).
Proof.
  revert s. induction y as [|l y IH]; intros s; simpl; [constructor|].
  destruct (c =? l); [|apply IH]. constructor; [|apply IH].
  intros H. apply label_positions_In in H. lia.
Qed.

Lemma label_positions_length c s y :
  length (label_positions c s y) = count_occ Nat.eq_dec y c.
Proof.
  revert s. induction y as [|l y IH]; intros s; simpl; [reflexivity|].
  destruct (Nat.eq_dec l c) as [->|N].
  - rewrite Nat.eqb_refl. simpl. now rewrite IH.
  - destruct (c =? l) eqn:E; [apply Nat.eqb_eq in E; congruence|apply IH].
Qed.

(** Two distinct examples of one class. *)
Lemma random_choice_from_run (a : list nat) w :
  2 <= length a -> NoDup a ->
  exists idx w', random_choice_from a 2 w = (Ok idx, w') /\
                 length idx = 2 /\ NoDup idx /\ incl idx a.
Proof.
  intros Hlen Hnd.
  destruct (@random_choice_total L OK (length a) 2 w) as (pos & w' & Hc); [lia|lia|].
  destruct (random_choice_Ok _ _ _ Hc) as (Hl & Hndp & Hr & _).
  destruct (np_take_total _ Hr) as [idx Hx].
  pose proof (np_take_map _ _ 0 Hx) as Hmap.
  exists idx, w'. split; [|split; [|split]].
  - unfold random_choice_from. erewrite bind_Ok; [|exact Hc].
    unfold lift. now rewrite Hx.
  - rewrite (np_take_length _ _ Hx). exact Hl.
  - rewrite Hmap. now apply NoDup_map_nth.
  - rewrite Hmap. intros x Hx'. apply in_map_iff in Hx'.
    destruct Hx' as (p & <- & Hp). apply nth_In.
    rewrite Forall_forall in Hr. now apply Hr.
Qed.

Lemma filter_none (A : Type) (f : A -> bool) l :
  Forall (fun x => f x = false) l -> filter f l = [].
Proof. induction 1 as [|x l Hx _ IH]; simpl; [reflexivity|]. now rewrite Hx. Qed.

Lemma filter_all (A : Type) (f : A -> bool) l :
  Forall (fun x => f x = true) l -> filter f l = l.
Proof.
  induction 1 as [|x l Hx _ IH]; simpl; [reflexivity|]. now rewrite Hx, IH.
Qed.

Lemma balanced_step y c acc idx :
  balanced y c acc -> length idx = 2 -> NoDup idx ->
  Forall (fun i => nth_error y i = Some c) idx ->
  balanced y (S c) (acc ++ idx).
Proof.
  intros (Hnd & Hlen & Hlab & Hcnt) Hl2 Hndi Hc.
  rewrite Forall_forall in Hlab, Hc. split; [|split; [|split]].
  - apply NoDup_app; auto. intros i Hi Hi'.
    destruct (Hlab i Hi) as (l & Hl & Hlt). rewrite (Hc i Hi') in Hl.
    inversion Hl. lia.
  - rewrite length_app. lia.
  - apply Forall_forall. intros i Hi. apply in_app_or in Hi.
    destruct Hi as [Hi|Hi].
    + destruct (Hlab i Hi) as (l & Hl & Hlt). exists l. split; [assumption|lia].
    + exists c. split; [now apply Hc|lia].
  - intros c' Hc'. unfold count_label. rewrite filter_app, length_app.
    destruct (Nat.eq_dec c' c) as [->|N].
    + rewrite filter_none, filter_all; [simpl; lia| |].
      * apply Forall_forall. intros i Hi. unfold has_label.
        rewrite (Hc i Hi). apply Nat.eqb_refl.
      * apply Forall_forall. intros i Hi. unfold has_label.
        destruct (Hlab i Hi) as (l & -> & Hlt). apply Nat.eqb_neq. lia.
    + rewrite (filter_none (has_label y c') (l := idx)).
      * simpl. rewrite Nat.add_0_r. apply Hcnt. lia.
      * apply Forall_forall. intros i Hi. unfold has_label.
        rewrite (Hc i Hi). apply Nat.eqb_neq. lia.
Qed.

Lemma initial_idx_loop_run y k c0 acc w :
  (forall c, c < 10 -> 2 <= count_occ Nat.eq_dec y c) ->
  c0 + k <= 10 -> balanced y c0 acc ->
  exists out w',
    initial_idx_loop (seq c0 k) (map (one_hot 10) y) acc w = (Ok out, w') /\
    balanced y (c0 + k) out.
Proof.
  intros Hcount. revert c0 acc w. induction k as [|k IH]; intros c0 acc w Hk Hb.
  - simpl. unfold ret. exists acc, w. now rewrite Nat.add_0_r.
  - simpl. rewrite np_where_labels by lia.
    destruct (@random_choice_from_run (label_positions c0 0 y) w)
      as (idx & w1 & Hrun & Hl & Hnd & Hincl).
    { rewrite label_positions_length. apply Hcount. lia. }
    { apply label_positions_NoDup. }
    erewrite bind_Ok; [|exact Hrun].
    destruct (IH (S c0) (acc ++ idx) w1) as (out & w' & Hloop & Hout); [lia| |].
    + apply balanced_step; auto. apply Forall_forall. intros i Hi.
      apply Hincl, label_positions_In in Hi. destruct Hi as [_ Hi].
      now rewrite Nat.sub_0_r in Hi.
    + exists out, w'. split; [assumption|].
      now replace (c0 + S k) with (S c0 + k) by lia.
Qed.

Lemma data_cells_run X_train_raw y_train_raw X_test_raw y_test_raw w :
  mnist_shaped X_train_raw y_train_raw X_test_raw y_test_raw ->
  exists d w',
    data_cells X_train_raw y_train_raw X_test_raw y_test_raw w = (Ok d, w') /\
    length (initial_idx d) = 20 /\ NoDup (initial_idx d) /\
    (forall c, c < 10 -> count_label y_train_raw c (initial_idx d) = 2) /\
    X_train d = map scale_image X_train_raw /\
    y_train d = map (one_hot 10) y_train_raw /\
    rows_at (X_train d) (initial_idx d) (X_initial d) /\
    rows_at (y_train d) (initial_idx d) (y_initial d) /\
    X_pool d = np_delete (X_train d) (initial_idx d) /\
    y_pool d = np_delete (y_train d) (initial_idx d) /\
    length (X_pool d) + 20 = n_train /\ length (y_pool d) + 20 = n_train.
Proof.
  intros (HX & Hy & Hlab & Hcount & HXt & Hlabt).
  destruct (@initial_idx_loop_run y_train_raw 10 0 [] w Hcount)
    as (idx & w' & Hloop & Hnd & Hlen & Hin & Hcnt); [lia| |].
  { split; [constructor|]. split; [reflexivity|]. split; [constructor|].
    intros c' Hc'. lia. }
  assert (Forall (fun i => i < n_train) idx) as Hr.
  { eapply Forall_impl; [|exact Hin]. intros i (l & Hl & _). rewrite <- Hy.
    apply nth_error_Some. congruence. }
  assert (length (map scale_image X_train_raw) = n_train) as HlX
    by now rewrite length_map.
  assert (length (map (one_hot 10) y_train_raw) = n_train) as Hly
    by now rewrite length_map.
  destruct (np_take_total (map scale_image X_train_raw) (idx := idx)) as [Xi HXi];
    [now rewrite HlX|].
  destruct (np_take_total (map (one_hot 10) y_train_raw) (idx := idx)) as [yi Hyi];
    [now rewrite Hly|].
  eexists. exists w'. split.
  - unfold data_cells, preprocess. rewrite HX, HXt, !Nat.eqb_refl.
    rewrite (to_categorical_run Hlab), (to_categorical_run Hlabt).
    unfold bind at 1 2 3 4, lift at 1 2 3 4.
    erewrite bind_Ok; [|exact Hloop].
    unfold bind, lift, ret. rewrite HXi, Hyi. reflexivity.
  - simpl.
    assert (length idx = 20) as H20 by (simpl in Hlen; lia).
    pose proof (np_delete_length (map scale_image X_train_raw) (obj := idx)) as EX.
    pose proof (np_delete_length (map (one_hot 10) y_train_raw) (obj := idx)) as Ey.
    rewrite nodup_fixed_point, HlX in EX by assumption.
    rewrite nodup_fixed_point, Hly in Ey by assumption.
    rewrite H20 in EX, Ey.
    split; [exact H20|]. split; [exact Hnd|]. split; [exact Hcnt|].
    split; [reflexivity|]. split; [reflexivity|].
    split; [now apply np_take_Ok_Forall2|].
    split; [now apply np_take_Ok_Forall2|].
    split; [reflexivity|]. split; [reflexivity|]. auto.
Qed.

End DataCells.

(** ** No cell draws anything *)

Section Quiet.
Context {L : Libs}.

Lemma quiet_ret (A : Type) (a : A) : quiet (ret a).
Proof. intros w. exists []. simpl. now rewrite app_nil_r. Qed.

Lemma quiet_lift (A : Type) (r : result A) : quiet (lift r).
Proof. intros w. exists []. simpl. now rewrite app_nil_r. Qed.

Lemma quiet_emit e : is_plot_call e = false -> quiet (emit e).
Proof. intros He w. exists [e]. simpl. auto. Qed.

Lemma quiet_bind (A B : Type) (c : M A) (k : A -> M B) :
  quiet c -> (forall a, quiet (k a)) -> quiet (bind c k).
Proof.
  intros Hc Hk w. unfold bind. destruct (Hc w) as (e1 & H1 & F1).
  destruct (c w) as [[a|e] w1]; simpl in *.
  - destruct (Hk a w1) as (e2 & H2 & F2). exists (e1 ++ e2).
    rewrite H2, H1, app_assoc. split; [reflexivity|]. now apply Forall_app.
  - now exists e1.
Qed.

Lemma quiet_random_choice n k : quiet (random_choice n k).
Proof.
  intros w. exists [RandomChoice n k]. unfold random_choice.
  destruct (np_random_choice n k (w_rng w)) as [[l|] g]; simpl; auto.
Qed.

Lemma quiet_MC_sampling learner (X : list Row) s T : quiet (MC_sampling learner X s T).
Proof.
  unfold MC_sampling. induction T as [|T IH]; simpl.
  - apply quiet_ret.
  - apply quiet_bind.
    + apply quiet_bind; [apply quiet_lift|]. intros batch w.
      exists [ForwardPass (length batch) true]. unfold MC_output.
      destruct (K_function learner batch true (w_rng w)). simpl. auto.
    + intros x. apply quiet_bind; [exact IH|]. intros xs. apply quiet_ret.
Qed.

Lemma quiet_select_top (s : list nat) (X : list Row) acq n :
  quiet (select_top s X acq n).
Proof.
  unfold select_top. apply quiet_bind; [apply quiet_lift|]. intros qi.
  apply quiet_bind; [apply quiet_lift|]. intros qx. apply quiet_ret.
Qed.

Lemma quiet_max_entropy learner (X : list Row) n T : quiet (max_entropy learner X n T).
Proof.
  unfold max_entropy. apply quiet_bind; [apply quiet_random_choice|]. intros s.
  apply quiet_bind; [apply quiet_MC_sampling|]. intros MC.
  apply quiet_bind; [apply quiet_lift|]. intros acq. apply quiet_select_top.
Qed.

Lemma quiet_random_choice_from a k : quiet (random_choice_from a k).
Proof.
  unfold random_choice_from. apply quiet_bind; [apply quiet_random_choice|].
  intros pos. apply quiet_lift.
Qed.

Lemma quiet_uniform learner (X : list Row) n : quiet (uniform learner X n).
Proof.
  unfold uniform. apply quiet_bind; [apply quiet_random_choice_from|]. intros qi.
  apply quiet_bind; [apply quiet_lift|]. intros qx. apply quiet_ret.
Qed.

Lemma quiet_learner_score learner (Xt : list Row) yt v :
  quiet (learner_score learner Xt yt v).
Proof.
  unfold learner_score. apply quiet_bind; [now apply quiet_emit|].
  intros _. apply quiet_ret.
Qed.

Section Loop.
Variable query_strategy : strategy.
Variables (Xt : list Row) (yt : list (list Q)) (epochs batch_size n_instances verbose : nat).
Hypothesis quiet_strategy : forall l X n, quiet (query_strategy l X n).

Lemma quiet_al_body index st :
  quiet (al_body query_strategy Xt yt epochs batch_size n_instances verbose index st).
Proof.
  unfold al_body. apply quiet_bind; [apply quiet_strategy|]. intros [qi qx].
  apply quiet_bind; [apply quiet_lift|]. intros X_new.
  apply quiet_bind; [apply quiet_lift|]. intros y_new.
  apply quiet_bind.
  - intros w. exists [Fit (length X_new) verbose]. unfold learner_teach.
    destruct (modAL_teach (st_learner st) X_new y_new epochs batch_size (w_rng w)).
    simpl. auto.
  - intros l. apply quiet_bind; [apply quiet_learner_score|]. intros acc.
    apply quiet_bind; [now apply quiet_emit|]. intros _. apply quiet_ret.
Qed.

Lemma quiet_procedure X_pool y_pool X_initial y_initial estimator n_queries :
  quiet (active_learning_procedure query_strategy Xt yt epochs batch_size
           n_instances verbose X_pool y_pool X_initial y_initial estimator n_queries).
Proof.
  unfold active_learning_procedure. apply quiet_bind.
  - intros w. exists [Fit (length X_initial) verbose]. unfold new_learner.
    destruct (ActiveLearner estimator X_initial y_initial (w_rng w)). simpl. auto.
  - intros l. apply quiet_bind; [apply quiet_learner_score|]. intros acc.
    apply quiet_bind; [|intros st; apply quiet_ret].
    generalize (AlState l X_pool y_pool [acc]).
    induction (seq 0 n_queries) as [|i rest IH]; intros st; simpl.
    + apply quiet_ret.
    + apply quiet_bind; [apply quiet_al_body|]. exact IH.
Qed.

End Loop.

Lemma quiet_data_cells Xtr ytr Xte yte : quiet (data_cells Xtr ytr Xte yte).
Proof.
  unfold data_cells.
  do 4 (apply quiet_bind; [apply quiet_lift|]; intros ?).
  apply quiet_bind.
  - generalize (@nil nat). induction (seq 0 10) as [|c rest IH]; intros acc; simpl.
    + apply quiet_ret.
    + apply quiet_bind; [apply quiet_random_choice_from|intros idx; apply IH].
  - intros idx. do 2 (apply quiet_bind; [apply quiet_lift|]; intros ?).
    apply quiet_ret.
Qed.

Lemma quiet_run_cells d : quiet (run_cells d).
Proof.
  unfold run_cells.
  apply quiet_bind; [apply quiet_procedure; intros; apply quiet_max_entropy|].
  intros h1.
  apply quiet_bind; [apply quiet_procedure; intros; apply quiet_uniform|].
  intros h2.
  do 3 (apply quiet_bind; [now apply quiet_emit|]; intros _).
  apply quiet_ret.
Qed.

(** The whole notebook adds no plotting call to the trace. *)
Lemma notebook_never_plots Xtr ytr Xte yte w :
  Forall (fun e => is_plot_call e = false) (w_trace w) ->
  ~ plots_curves (snd (notebook Xtr ytr Xte yte w)).
Proof.
  intros Hw (e & Hin & He).
  assert (quiet (notebook Xtr ytr Xte yte)) as Hq.
  { unfold notebook. apply quiet_bind; [apply quiet_data_cells|].
    intros d. apply quiet_run_cells. }
  destruct (Hq w) as (evs & Htr & Hevs). rewrite Htr in Hin.
  apply in_app_or in Hin. rewrite Forall_forall in Hw, Hevs.
  destruct Hin as [Hin|Hin]; [specialize (Hw e Hin)|specialize (Hevs e Hin)];
    congruence.
Qed.

End Quiet.

(** ** The notebook from the first data cell to the last cell *)

Section NotebookFacts.
Context {L : Libs} {OK : LibsOk L}.

Lemma run_cells_run d w :
  length (X_pool d) = length (y_pool d) -> 2990 <= length (X_pool d) ->
  exists entropy_perf_hist uniform_perf_hist w' evs,
    run_cells d w = (Ok (entropy_perf_hist, uniform_perf_hist), w') /\
    length entropy_perf_hist = 101 /\ length uniform_perf_hist = 101 /\
    w_trace w' = evs ++ last_cell.
Proof.
  intros Hlen Hsize.
  destruct (@procedure_returns L (fun l X n => max_entropy l X n 100)
              (X_test d) (y_test d) 50 128 10 0 2000 (X_pool d) (y_pool d)
              (X_initial d) (y_initial d) KerasClassifier 100 w)
    as (h1 & w1 & H1); [apply max_entropy_ok; lia|assumption|lia|].
  destruct (@procedure_returns L uniform
              (X_test d) (y_test d) 50 128 10 0 (Nat.max 10 1) (X_pool d) (y_pool d)
              (X_initial d) (y_initial d) KerasClassifier 100 w1)
    as (h2 & w2 & H2); [apply uniform_ok|assumption|lia|].
  pose proof H1 as P1. apply procedure_history in P1. destruct P1 as (L1 & _).
  pose proof H2 as P2. apply procedure_history in P2. destruct P2 as (L2 & _).
  exists h1, h2. eexists. exists (w_trace w2). split; [|split; [|split]].
  - unfold run_cells. erewrite bind_Ok; [|exact H1].
    erewrite bind_Ok; [|exact H2]. unfold bind, emit, ret. simpl. reflexivity.
  - exact L1.
  - exact L2.
  - simpl. rewrite <- !app_assoc. reflexivity.
Qed.

Lemma notebook_run Xtr ytr Xte yte w :
  mnist_shaped Xtr ytr Xte yte ->
  exists entropy_perf_hist uniform_perf_hist w' evs,
    notebook Xtr ytr Xte yte w = (Ok (entropy_perf_hist, uniform_perf_hist), w') /\
    length entropy_perf_hist = 101 /\ length uniform_perf_hist = 101 /\
    w_trace w' = evs ++ last_cell.
Proof.
  intros Hd.
  destruct (data_cells_run w Hd)
    as (d & w1 & Hrun & _ & _ & _ & _ & _ & _ & _ & _ & _ & HlX & Hly).
  destruct (run_cells_run d w1) as (h1 & h2 & w' & evs & Hr & L1 & L2 & Htr).
  - lia.
  - unfold n_train in HlX. lia.
  - exists h1, h2, w', evs. split; [|auto].
    unfold notebook. erewrite bind_Ok; [|exact Hrun]. exact Hr.
Qed.

End NotebookFacts.

Section NotebookClaims.
Context {L : Libs} {OK : LibsOk L}.

(** C7, as the code has it. On data of the shape of MNIST the notebook runs
    both procedures to the end, keeps the two histories of 101 accuracies
    each, and its last cell only imports matplotlib.pyplot and seaborn and
    calls sns.set(): no call that draws a curve is made. *)
Theorem notebook_ends_without_plotting Xtr ytr Xte yte w :
  mnist_shaped Xtr ytr Xte yte ->
  Forall (fun e => is_plot_call e = false) (w_trace w) ->
  exists entropy_perf_hist uniform_perf_hist w' evs,
    notebook Xtr ytr Xte yte w = (Ok (entropy_perf_hist, uniform_perf_hist), w') /\
    length entropy_perf_hist = 101 /\ length uniform_perf_hist = 101 /\
    w_trace w' = evs ++ last_cell /\
    ~ plots_curves w'.
Proof.
  intros Hd Hw.
  destruct (notebook_run w Hd) as (h1 & h2 & w' & evs & Hrun & L1 & L2 & Htr).
  exists h1, h2, w', evs. repeat (split; [assumption|]).
  pose proof (notebook_never_plots Xtr ytr Xte yte w Hw) as Hn.
  now rewrite Hrun in Hn.
Qed.

(** C9. On data of the shape of MNIST the data cells pick 20 pairwise
    distinct training indices, exactly 2 of each of the 10 classes; the
    initial set is the training rows at those indices and the pool is the
    training set without them, 59980 rows of features and of labels. *)
Theorem initial_set_is_class_balanced Xtr ytr Xte yte w :
  mnist_shaped Xtr ytr Xte yte ->
  exists d w',
    data_cells Xtr ytr Xte yte w = (Ok d, w') /\
    length (initial_idx d) = 20 /\ NoDup (initial_idx d) /\
    (forall c, c < 10 -> count_label ytr c (initial_idx d) = 2) /\
    X_train d = map scale_image Xtr /\
    y_train d = map (one_hot 10) ytr /\
    rows_at (X_train d) (initial_idx d) (X_initial d) /\
    rows_at (y_train d) (initial_idx d) (y_initial d) /\
    X_pool d = np_delete (X_train d) (initial_idx d) /\
    y_pool d = np_delete (y_train d) (initial_idx d) /\
    Z.of_nat (length (X_pool d)) = 59980%Z /\
    Z.of_nat (length (y_pool d)) = 59980%Z.
Proof.
  intros Hd.
  destruct (data_cells_run w Hd)
    as (d & w' & Hrun & H20 & Hnd & Hcnt & HX & Hy & HXi & Hyi & HXp & Hyp
        & HlX & Hly).
  exists d, w'. repeat (split; [assumption|]).
  unfold n_train in *. lia.
Qed.

End NotebookClaims.

(** ** The slips of var_ratio on a small array *)

(** With [a] bound to three samples of one point, two of them for class 0,
    the score is 1 - 2/1 (the count over the batch size) where the variation
    ratio is 1 - 2/3. *)
Example var_ratio_divides_by_batch_size :
  var_ratio_acquisition [[0]; [0]; [1]] = [(-1 # 1)%Q] /\
  Qeq (variation_ratio [[0]; [0]; [1]] 0) (1 # 3).
Proof. split; reflexivity. Qed.

(** ** The claims on the stand-in libraries *)

Module Witnesses.
Import TestLibs TestLibsFacts.

Lemma length_concat_repeat (A : Type) (l : list A) k :
  length (concat (repeat l k)) = k * length l.
Proof.
  induction k as [|k IH]; simpl; [reflexivity|]. now rewrite length_app, IH.
Qed.

Lemma count_occ_concat_repeat (l : list nat) k c :
  count_occ Nat.eq_dec (concat (repeat l k)) c = k * count_occ Nat.eq_dec l c.
Proof.
  induction k as [|k IH]; simpl; [reflexivity|]. now rewrite count_occ_app, IH.
Qed.

Lemma Forall_concat_repeat (A : Type) (P : A -> Prop) (l : list A) k :
  Forall P l -> Forall P (concat (repeat l k)).
Proof.
  intros H. induction k as [|k IH]; simpl; [constructor|]. now apply Forall_app.
Qed.

Lemma digits_below_10 : Forall (fun l => l < 10) (seq 0 10).
Proof. apply Forall_forall. intros l Hl. apply in_seq in Hl. lia. Qed.

Lemma test_data_shaped :
  mnist_shaped (L := test_libs) X_train_raw y_train_raw X_test_raw y_test_raw.
Proof.
  unfold mnist_shaped, X_train_raw, X_test_raw, y_train_raw, y_test_raw.
  rewrite !repeat_length, length_concat_repeat, length_seq.
  split; [reflexivity|]. split; [unfold n_train; lia|].
  split; [apply Forall_concat_repeat, digits_below_10|].
  split; [|split; [reflexivity|apply Forall_concat_repeat, digits_below_10]].
  intros c Hc. rewrite count_occ_concat_repeat.
  assert (count_occ Nat.eq_dec (seq 0 10) c = 1) as ->.
  { do 10 (destruct c as [|c]; [reflexivity|]). lia. }
  lia.
Qed.

Lemma max_entropy_witness :
  exists query_idx query_instance w',
    max_entropy (L := test_libs) (0 : nat) (seq 0 2000) 10 100 w0
      = (Ok (query_idx, query_instance), w') /\
    length query_idx = 10.
Proof.
  destruct (@max_entropy_selects_top_predictive_entropy test_libs test_libs_ok
              (0 : nat) (seq 0 2000) 10 100 w0)
    as (s & w1 & MC & w' & acq & idx & qx & _ & _ & _ & _ & _ & Hrun & Htop & _).
  - rewrite length_seq. lia.
  - lia.
  - exists (map (fun p => nth p s 0) idx), qx, w'. split; [exact Hrun|].
    rewrite length_map. destruct Htop as (Hl & _). exact Hl.
Defined.

Lemma bald_witness :
  exists query_idx query_instance w',
    bald (L := test_libs) (0 : nat) (seq 0 2000) 10 100 w0
      = (Ok (query_idx, query_instance), w') /\
    length query_idx = 10.
Proof.
  destruct (@bald_selects_top_mutual_information test_libs test_libs_ok
              (0 : nat) (seq 0 2000) 10 100 w0)
    as (s & w1 & MC & w' & acq & idx & qx & _ & _ & _ & _ & _ & Hrun & Htop & _).
  - rewrite length_seq. lia.
  - lia.
  - exists (map (fun p => nth p s 0) idx), qx, w'. split; [exact Hrun|].
    rewrite length_map. destruct Htop as (Hl & _). exact Hl.
Defined.

Lemma var_ratio_never_returns_witness :
  fst (var_ratio (L := test_libs) notebook_globals (0 : nat) (seq 0 2000) 10 100 w0)
  = Raise (NameError "a").
Proof.
  rewrite (@var_ratio_never_returns test_libs test_libs_ok).
  rewrite length_seq. reflexivity.
Defined.

Lemma var_ratio_ignores_the_samples_witness :
  exists g,
    var_ratio (L := test_libs) notebook_globals (0 : nat) (seq 0 2000) 10 100 w0
    = (Raise (NameError "a"),
       World g (w_trace w0 ++ RandomChoice (length (seq 0 2000)) 2000
                            :: repeat (ForwardPass 2000 true) 100)).
Proof.
  destruct (@var_ratio_ignores_the_samples test_libs test_libs_ok notebook_globals
              (0 : nat) (1 : nat) (seq 0 2000) 10 100 w0) as [H _].
  apply H. rewrite length_seq. lia.
Defined.

Lemma small_pool_witness :
  fst (max_entropy (L := test_libs) (0 : nat) (seq 0 5) 10 100 w0) = Raise ValueError.
Proof.
  destruct (@uncertainty_strategies_need_2000_rows test_libs test_libs_ok
              notebook_globals (0 : nat) (seq 0 5) 10 100 w0) as [H _].
  assert (length (seq 0 5) < 2000) as Hlt by (rewrite length_seq; lia).
  apply H in Hlt. now inversion Hlt.
Defined.

Lemma uniform_result_witness :
  rows_at [5; 6; 7] [0; 1] [5; 6] /\ NoDup [0; 1] /\
  Forall (fun i => i < 3) [0; 1] /\ length [0; 1] = 2.
Proof.
  destruct (@query_result_is_consistent test_libs test_libs_ok (0 : nat) [5; 6; 7]
              2 1 w0 [0; 1] [5; 6] (World (1 : @rng test_libs) [RandomChoice 3 2])
              (le_n 1)) as [H _].
  apply H. reflexivity.
Defined.

(** C10 as stated fails: asked for 2001 instances on a pool of 2000 rows,
    max_entropy returns normally with 2000 indices. *)
Lemma max_entropy_returns_fewer_than_asked :
  exists query_idx query_instance w',
    max_entropy (L := test_libs) (0 : nat) (seq 0 2000) 2001 1 w0
      = (Ok (query_idx, query_instance), w') /\
    length query_idx <> 2001.
Proof.
  destruct (@max_entropy_run test_libs test_libs_ok (0 : nat) (seq 0 2000) 2001 1 w0)
    as (s & w1 & MC & w' & idx & qx & _ & _ & _ & _ & _ & _ & _ & Hrun & Htop & _).
  - rewrite length_seq. lia.
  - lia.
  - exists (map (fun p => nth p s 0) idx), qx, w'. split; [exact Hrun|].
    rewrite length_map. destruct Htop as (Hl & _). rewrite Hl. simpl. lia.
Qed.

(** C4 as stated fails: uniform on a pool of 50 rows, asked for 10 rows in
    each of 6 queries, finds the pool empty at the sixth and raises. *)
Lemma sixth_query_on_fifty_rows_raises :
  exists w',
    active_learning_procedure (L := test_libs) uniform [] [] 50 128 10 0
      (seq 0 50) (repeat [] 50) [] [] tt 6 w0 = (Raise ValueError, w').
Proof. eexists. vm_compute. reflexivity. Qed.

Lemma perf_hist_witness :
  exists run : list (@al_state test_libs * world),
    length run = 3 /\
    [(0 # 1000)%Q; (1 # 1000)%Q; (2 # 1000)%Q]
      = map (fun s => @modAL_score test_libs (st_learner (fst s)) [] []) run /\
    exists st, nth_error run 2 = Some (st, small_run_end).
Proof.
  destruct (@perf_hist_follows_the_iterations test_libs uniform [] [] 50 128 1 0
              [5; 6; 7] [[1%Q]; [0%Q]; [1%Q]] [] [] tt 2 w0) as [_ H].
  destruct (H [(0 # 1000)%Q; (1 # 1000)%Q; (2 # 1000)%Q] small_run_end
              small_run_result)
    as (run & Hlen & _ & Hmap & _ & _ & st & Hlast & _).
  exists run. split; [exact Hlen|]. split; [exact Hmap|].
  exists st. exact Hlast.
Defined.

Lemma pool_update_witness :
  exists query_idx,
    length [6; 7] + length (nodup Nat.eq_dec query_idx) = length [5; 6; 7] /\
    combine [6; 7] [[0%Q]; [1%Q]]
      = np_delete (combine [5; 6; 7] [[1%Q]; [0%Q]; [1%Q]]) query_idx.
Proof.
  destruct (@queried_rows_leave_both_pools test_libs uniform [] [] 50 128 1 0 0
              (AlState (L := test_libs) (20 : nat) [5; 6; 7]
                       [[1%Q]; [0%Q]; [1%Q]] [(20 # 1000)%Q])
              w0
              (AlState (L := test_libs) (21 : nat) [6; 7] [[0%Q]; [1%Q]]
                       [(20 # 1000)%Q; (21 # 1000)%Q])
              (World (2 : @rng test_libs)
                     [RandomChoice 3 1; Fit 1 0; Score 0; Print 1 (21 # 1000)%Q]))
    as (qi & qx & w1 & _ & _ & _ & _ & Hc & Hl & _).
  - reflexivity.
  - reflexivity.
  - exists qi. split; [exact Hl|exact Hc].
Defined.

Lemma notebook_witness :
  exists entropy_perf_hist uniform_perf_hist w',
    notebook (L := test_libs) X_train_raw y_train_raw X_test_raw y_test_raw w0
      = (Ok (entropy_perf_hist, uniform_perf_hist), w') /\
    length entropy_perf_hist = 101 /\ ~ plots_curves w'.
Proof.
  destruct (@notebook_ends_without_plotting test_libs test_libs_ok
              X_train_raw y_train_raw X_test_raw y_test_raw w0 test_data_shaped)
    as (h1 & h2 & w' & evs & Hrun & L1 & _ & _ & Hn).
  - constructor.
  - exists h1, h2, w'. auto.
Defined.

(** C7 as stated fails: the run of the notebook on data of the shape of
    MNIST reaches its end without any call that draws. *)
Lemma notebook_run_draws_nothing :
  exists entropy_perf_hist uniform_perf_hist w',
    notebook (L := test_libs) X_train_raw y_train_raw X_test_raw y_test_raw w0
      = (Ok (entropy_perf_hist, uniform_perf_hist), w') /\
    ~ plots_curves w'.
Proof.
  destruct (@notebook_run test_libs test_libs_ok
              X_train_raw y_train_raw X_test_raw y_test_raw w0 test_data_shaped)
    as (h1 & h2 & w' & evs & Hrun & _).
  exists h1, h2, w'. split; [exact Hrun|].
  pose proof (@notebook_never_plots test_libs
                X_train_raw y_train_raw X_test_raw y_test_raw w0) as Hn.
  rewrite Hrun in Hn. apply Hn. constructor.
Qed.

Lemma initial_set_witness :
  exists d w',
    data_cells (L := test_libs) X_train_raw y_train_raw X_test_raw y_test_raw w0
      = (Ok d, w') /\
    length (initial_idx d) = 20 /\ Z.of_nat (length (X_pool d)) = 59980%Z.
Proof.
  destruct (@initial_set_is_class_balanced test_libs test_libs_ok
              X_train_raw y_train_raw X_test_raw y_test_raw w0 test_data_shaped)
    as (d & w' & Hrun & H20 & _ & _ & _ & _ & _ & _ & _ & _ & HlX & _).
  exists d, w'. auto.
Defined.

End Witnesses.

(** ** What the strategies leave in the trace *)

Section StrategyTraces.
Context {L : Libs} {OK : LibsOk L}.

Lemma bald_ok n_instances T :
  1 <= T ->
  strategy_ok (fun l X n => bald l X n T) 2000 n_instances.
Proof.
  intros HT learner X w HX.
  destruct (bald_run learner X n_instances w HX HT)
    as (s & w1 & MC & w' & idx & qx & _ & _ & _ & Hr & _ & _ & _ & Hrun
        & Htop & Hnd & Hincl & _).
  exists (map (fun p => nth p s 0) idx), qx, w'. split; [assumption|]. split.
  - apply Forall_forall. intros i Hi. rewrite Forall_forall in Hr.
    apply Hr, Hincl, Hi.
  - rewrite nodup_fixed_point by assumption. rewrite length_map.
    destruct Htop as (Hl & _). lia.
Qed.

(** X1. With T >= 1, a call of max_entropy or bald on a pool of at least 2000
    rows adds to the trace one draw of 2000 out of len(X) and then exactly T
    forward passes, each on a batch of 2000 rows with the learning phase on;
    on a smaller pool it adds the failed draw only and never runs the
    network. *)
Theorem uncertainty_strategies_trace learner (X : list Row) n_instances T w :
  1 <= T ->
  (2000 <= length X ->
   w_trace (snd (max_entropy learner X n_instances T w))
     = w_trace w ++ RandomChoice (length X) 2000
                 :: repeat (ForwardPass 2000 true) T /\
   w_trace (snd (bald learner X n_instances T w))
     = w_trace w ++ RandomChoice (length X) 2000
                 :: repeat (ForwardPass 2000 true) T) /\
  (length X < 2000 ->
   w_trace (snd (max_entropy learner X n_instances T w))
     = w_trace w ++ [RandomChoice (length X) 2000] /\
   w_trace (snd (bald learner X n_instances T w))
     = w_trace w ++ [RandomChoice (length X) 2000]).
Proof.
  intros HT. split; intros HX.
  - destruct (max_entropy_run learner X n_instances w HX HT)
      as (? & ? & ? & w1 & ? & ? & _ & _ & _ & _ & _ & _ & Ht1 & Hr1 & _).
    destruct (bald_run learner X n_instances w HX HT)
      as (? & ? & ? & w2 & ? & ? & _ & _ & _ & _ & _ & _ & Ht2 & Hr2 & _).
    rewrite Hr1, Hr2. split; assumption.
  - destruct (@random_choice_small L OK _ _ w HX) as (g & Hc).
    unfold max_entropy, bald. erewrite !bind_Raise by exact Hc.
    split; reflexivity.
Qed.

(** X4. On a non-empty pool of at least n_instances rows uniform returns
    n_instances pairwise distinct valid indices with their rows, after a
    single draw and without any forward pass. *)
Theorem uniform_returns_a_sample learner (X : list Row) n_instances w :
  0 < length X -> n_instances <= length X ->
  exists query_idx query_instance g,
    uniform learner X n_instances w
      = (Ok (query_idx, query_instance),
         World g (w_trace w ++ [RandomChoice (length X) n_instances])) /\
    length query_idx = n_instances /\ NoDup query_idx /\
    Forall (fun i => i < length X) query_idx /\
    rows_at X query_idx query_instance.
Proof.
  intros Hpos Hn.
  destruct (@random_choice_total L OK (length X) n_instances w) as (qi & w' & Hc);
    [assumption|assumption|].
  destruct (random_choice_Ok _ _ _ Hc) as (Hl & Hnd & Hr & Htr).
  destruct (np_take_total _ Hr) as [qx Hx].
  exists qi, qx, (w_rng w'). split; [|repeat split; auto].
  - rewrite uniform_unfold. erewrite bind_Ok; [|exact Hc].
    unfold bind, lift, ret. rewrite Hx. destruct w' as [g tr]. simpl in *.
    now rewrite Htr.
  - now apply np_take_Ok_Forall2.
Qed.

End StrategyTraces.

(** ** More about the acquisition arrays *)

Section AcquisitionFacts.
Context {L : Libs} {OK : LibsOk L}.

Lemma Qsum_perm l l' : Permutation l l' -> Qeq (Qsum l) (Qsum l').
Proof.
  induction 1 as [|x l l' _ IH|x y l|l l' l'' _ IH1 _ IH2]; simpl.
  - reflexivity.
  - now rewrite IH.
  - ring.
  - now rewrite IH1.
Qed.

Lemma p_bar_perm MC MC' i c :
  Permutation MC MC' -> Qeq (p_bar MC i c) (p_bar MC' i c).
Proof.
  intros P. unfold p_bar.
  rewrite (Qsum_perm (Permutation_map (fun S => entry S i c) P)).
  now rewrite (Permutation_length P).
Qed.

Lemma predictive_entropy_perm MC MC' C i :
  Permutation MC MC' ->
  Qeq (predictive_entropy MC C i) (predictive_entropy MC' C i).
Proof.
  intros P. unfold predictive_entropy. apply Qopp_comp. apply Qsum_ext.
  intros c _.
  change (Qeq (plogp (p_bar MC i c)) (plogp (p_bar MC' i c))).
  apply plogp_proper. now apply p_bar_perm.
Qed.

Lemma mutual_information_perm MC MC' C i :
  Permutation MC MC' ->
  Qeq (mutual_information MC C i) (mutual_information MC' C i).
Proof.
  intros P. unfold mutual_information.
  rewrite (predictive_entropy_perm C i P).
  rewrite (Qsum_perm (Permutation_map (sample_entropy C i) P)).
  now rewrite (Permutation_length P).
Qed.

Lemma tensor_shape_perm T B C MC MC' :
  Permutation MC MC' -> tensor_shape T B C MC -> tensor_shape T B C MC'.
Proof.
  intros P [HT HF]. split.
  - now rewrite <- (Permutation_length P).
  - eapply Permutation_Forall; eauto.
Qed.

(** X3. The scores of max_entropy and of bald do not depend on the order of
    the T samples: permuting the sampled tensor along its first axis leaves
    every score at the same value. *)
Theorem acquisition_ignores_sample_order T B C MC MC' :
  tensor_shape T B C MC -> 1 <= T -> Permutation MC MC' ->
  (exists acq acq',
     max_entropy_acquisition MC = Ok acq /\
     max_entropy_acquisition MC' = Ok acq' /\
     forall i, i < B -> Qeq (nthQ i acq) (nthQ i acq')) /\
  (exists acq acq',
     bald_acquisition MC = Ok acq /\
     bald_acquisition MC' = Ok acq' /\
     forall i, i < B -> Qeq (nthQ i acq) (nthQ i acq')).
Proof.
  intros Hsh HT P. pose proof (tensor_shape_perm P Hsh) as Hsh'. split.
  - destruct (max_entropy_acquisition_formula Hsh HT) as (a & Ha & _ & Hf).
    destruct (max_entropy_acquisition_formula Hsh' HT) as (a' & Ha' & _ & Hf').
    exists a, a'. repeat split; auto. intros i Hi.
    rewrite (Hf i Hi), (Hf' i Hi). now apply predictive_entropy_perm.
  - destruct (bald_acquisition_formula Hsh HT) as (a & Ha & _ & Hf).
    destruct (bald_acquisition_formula Hsh' HT) as (a' & Ha' & _ & Hf').
    exists a, a'. repeat split; auto. intros i Hi.
    rewrite (Hf i Hi), (Hf' i Hi). now apply mutual_information_perm.
Qed.

(** X2. With a single sample (T = 1) every score of bald is zero: the
    entropy of the mean is the entropy of the only sample. *)
Theorem bald_single_sample_scores_zero B C (S : list (list Q)) :
  matrix_shape B C S ->
  exists acq, bald_acquisition [S] = Ok acq /\ length acq = B /\
              forall i, i < B -> Qeq (nthQ i acq) 0.
Proof.
  intros HS.
  assert (tensor_shape 1 B C [S]) as Hsh by (split; [reflexivity|now constructor]).
  destruct (bald_acquisition_formula Hsh (le_n 1)) as (acq & Ha & Hl & Hf).
  exists acq. split; [assumption|]. split; [assumption|].
  intros i Hi. rewrite (Hf i Hi). unfold mutual_information.
  assert (Qeq (predictive_entropy [S] C i) (sample_entropy C i S)) as ->.
  { unfold predictive_entropy, sample_entropy. apply Qopp_comp, Qsum_ext.
    intros c _.
    change (Qeq (plogp (p_bar [S] i c)) (plogp (entry S i c))).
    apply plogp_proper. unfold p_bar. simpl. unfold QofNat. simpl. field. }
  simpl. unfold QofNat. simpl. field.
Qed.

End AcquisitionFacts.

(** ** How many queries a pool affords *)

Section ExactStrategies.
Context {L : Libs} {OK : LibsOk L}.

Lemma uniform_exact n_instances :
  1 <= n_instances -> strategy_exact uniform n_instances n_instances n_instances.
Proof.
  intros Hn learner X w. split; intros HX.
  - destruct (@random_choice_total L OK (length X) n_instances w) as (qi & w' & Hc);
      [lia|lia|].
    destruct (random_choice_Ok _ _ _ Hc) as (Hl & Hnd & Hr & _).
    destruct (np_take_total _ Hr) as [qx Hx].
    exists qi, qx, w'. repeat split; auto.
    rewrite uniform_unfold. erewrite bind_Ok; [|exact Hc].
    unfold bind, lift, ret. now rewrite Hx.
  - destruct (@random_choice_small L OK _ _ w HX) as (g & Hc).
    rewrite uniform_unfold. erewrite bind_Raise; [|exact Hc]. eauto.
Qed.

Lemma max_entropy_exact n_instances T :
  1 <= T ->
  strategy_exact (fun l X n => max_entropy l X n T) 2000
                 (Nat.min n_instances 2000) n_instances.
Proof.
  intros HT learner X w. split; intros HX.
  - destruct (max_entropy_run learner X n_instances w HX HT)
      as (s & w1 & MC & w' & idx & qx & _ & _ & _ & Hr & _ & _ & _ & Hrun
          & Htop & Hnd & Hincl & _).
    exists (map (fun p => nth p s 0) idx), qx, w'. repeat split; auto.
    + apply Forall_forall. intros i Hi. rewrite Forall_forall in Hr.
      apply Hr, Hincl, Hi.
    + rewrite length_map. now destruct Htop.
  - destruct (@random_choice_small L OK _ _ w HX) as (g & Hc).
    unfold max_entropy. erewrite bind_Raise; [|exact Hc]. eauto.
Qed.

Lemma bald_exact n_instances T :
  1 <= T ->
  strategy_exact (fun l X n => bald l X n T) 2000
                 (Nat.min n_instances 2000) n_instances.
Proof.
  intros HT learner X w. split; intros HX.
  - destruct (bald_run learner X n_instances w HX HT)
      as (s & w1 & MC & w' & idx & qx & _ & _ & _ & Hr & _ & _ & _ & Hrun
          & Htop & Hnd & Hincl & _).
    exists (map (fun p => nth p s 0) idx), qx, w'. repeat split; auto.
    + apply Forall_forall. intros i Hi. rewrite Forall_forall in Hr.
      apply Hr, Hincl, Hi.
    + rewrite length_map. now destruct Htop.
  - destruct (@random_choice_small L OK _ _ w HX) as (g & Hc).
    unfold bald. erewrite bind_Raise; [|exact Hc]. eauto.
Qed.

Section Loop.
Variable query_strategy : strategy.
Variables (X_test : list Row) (y_test : list (list Q)).
Variables (epochs batch_size n_instances verbose min_pool m : nat).
Hypothesis exact : strategy_exact query_strategy min_pool m n_instances.

Local Abbreviation body := (al_body query_strategy X_test y_test epochs batch_size n_instances verbose).
Local Abbreviation loop := (al_loop query_strategy X_test y_test epochs batch_size n_instances verbose).
Local Abbreviation procedure :=
  (active_learning_procedure query_strategy X_test y_test epochs batch_size n_instances verbose).

Lemma al_body_exact index st w :
  length (st_X_pool st) = length (st_y_pool st) ->
  (min_pool <= length (st_X_pool st) ->
   exists st1 w1, body index st w = (Ok st1, w1) /\
     length (st_X_pool st1) = length (st_y_pool st1) /\
     length (st_X_pool st1) + m = length (st_X_pool st)) /\
  (length (st_X_pool st) < min_pool ->
   exists w1, body index st w = (Raise ValueError, w1)).
Proof.
  intros Hlen. destruct (exact (st_learner st) (st_X_pool st) w) as [Hok Hbad].
  split; intros HX.
  - destruct (Hok HX) as (qi & qx & w0 & Hq & Hr & Hnd & Hm).
    assert (exists st1 w1, body index st w = (Ok st1, w1)) as (st1 & w1 & Hb)
      by (eapply al_body_total; eauto).
    exists st1, w1. split; [assumption|].
    pose proof Hb as Hinv. apply al_body_Ok_inv in Hinv.
    destruct Hinv as (qi' & qx' & w0' & ? & ? & Hq' & _ & _ & _ & HXp & Hyp & _).
    rewrite Hq in Hq'. inversion Hq'; subst qi' qx' w0'; clear Hq'.
    split.
    + rewrite HXp, Hyp. now apply np_delete_same_length.
    + pose proof (np_delete_length (st_X_pool st) Hr) as Hdl.
      rewrite nodup_fixed_point in Hdl by assumption. rewrite HXp. lia.
  - destruct (Hbad HX) as (w1 & Hq). exists w1.
    unfold al_body. erewrite bind_Raise; [|exact Hq]. reflexivity.
Qed.

Lemma al_loop_exact l st w :
  length (st_X_pool st) = length (st_y_pool st) ->
  (l = [] \/ min_pool + m * (length l - 1) <= length (st_X_pool st) ->
   exists st' w', loop l st w = (Ok st', w') /\
     length (st_X_pool st') + m * length l = length (st_X_pool st)) /\
  (l <> [] -> length (st_X_pool st) < min_pool + m * (length l - 1) ->
   exists w', loop l st w = (Raise ValueError, w')).
Proof.
  revert st w. induction l as [|i rest IH]; intros st w Hlen.
  - split; [|congruence]. intros _. exists st, w. simpl. unfold ret.
    split; [reflexivity|lia].
  - destruct (al_body_exact i st w Hlen) as [Hok Hbad].
    simpl length. rewrite Nat.sub_succ, Nat.sub_0_r.
    split.
    + intros [Hnil|Hsize]; [discriminate|].
      destruct Hok as (st1 & w1 & Hb & Hlen1 & Hm); [lia|].
      destruct (IH st1 w1 Hlen1) as [IHok _].
      destruct IHok as (st' & w' & Hl & Hsz).
      { destruct rest as [|j rest']; [now left|right].
        simpl length in *. rewrite Nat.sub_succ, Nat.sub_0_r.
        rewrite Nat.mul_succ_r in Hsize. lia. }
      exists st', w'. split.
      * simpl. erewrite bind_Ok; [|exact Hb]. exact Hl.
      * rewrite Nat.mul_succ_r. lia.
    + intros _ Hsize.
      destruct (le_lt_dec min_pool (length (st_X_pool st))) as [Hge|Hlt].
      * destruct Hok as (st1 & w1 & Hb & Hlen1 & Hm); [assumption|].
        destruct (IH st1 w1 Hlen1) as [_ IHbad].
        destruct IHbad as (w' & Hl).
        { destruct rest; [simpl in Hsize; lia|discriminate]. }
        { destruct rest as [|j rest']; [simpl in Hsize; lia|].
          simpl length in *. rewrite Nat.sub_succ, Nat.sub_0_r.
          rewrite Nat.mul_succ_r in Hsize. lia. }
        exists w'. simpl. erewrite bind_Ok; [|exact Hb]. exact Hl.
      * destruct (Hbad Hlt) as (w1 & Hb). exists w1. simpl.
        erewrite bind_Raise; [|exact Hb]. reflexivity.
Qed.

Lemma procedure_exact X_pool y_pool X_initial y_initial estimator n_queries w :
  length X_pool = length y_pool ->
  (n_queries = 0 \/ min_pool + m * (n_queries - 1) <= length X_pool ->
   exists perf_hist w',
     procedure X_pool y_pool X_initial y_initial estimator n_queries w
       = (Ok perf_hist, w')) /\
  (1 <= n_queries -> length X_pool < min_pool + m * (n_queries - 1) ->
   exists w',
     procedure X_pool y_pool X_initial y_initial estimator n_queries w
       = (Raise ValueError, w')).
Proof.
  intros Hlen. rewrite procedure_unfold.
  set (st0 := fst (initial_state X_test y_test verbose X_pool y_pool X_initial y_initial estimator w)).
  set (w0 := snd (initial_state X_test y_test verbose X_pool y_pool X_initial y_initial estimator w)).
  assert (st_X_pool st0 = X_pool /\ st_y_pool st0 = y_pool) as [HX Hy].
  { unfold st0, initial_state.
    now destruct (ActiveLearner estimator X_initial y_initial (w_rng w)). }
  destruct (al_loop_exact (seq 0 n_queries) st0 w0) as [Hok Hbad].
  { now rewrite HX, Hy. }
  rewrite length_seq, HX in Hok, Hbad. split.
  - intros Hq. destruct Hok as (st' & w' & Hl & _).
    { destruct Hq as [->|Hq]; [now left|now right]. }
    erewrite bind_Ok; [|exact Hl]. unfold ret. eauto.
  - intros Hq Hsize. destruct Hbad as (w' & Hl); [|assumption|].
    { destruct n_queries; [lia|simpl; discriminate]. }
    exists w'. erewrite bind_Raise; [|exact Hl]. reflexivity.
Qed.

End Loop.

(** X5. With uniform, n_instances >= 1 and paired pools, the procedure
    returns exactly when the pool holds n_instances * n_queries rows; on a
    smaller pool it raises ValueError and returns no history. *)
Theorem uniform_run_needs_enough_rows (X_test : list Row) y_test epochs batch_size
  n_instances verbose X_pool y_pool X_initial y_initial estimator n_queries w :
  1 <= n_instances -> length X_pool = length y_pool ->
  (n_instances * n_queries <= length X_pool ->
   exists perf_hist w',
     active_learning_procedure uniform X_test y_test epochs batch_size n_instances verbose
       X_pool y_pool X_initial y_initial estimator n_queries w
     = (Ok perf_hist, w')) /\
  (length X_pool < n_instances * n_queries ->
   exists w',
     active_learning_procedure uniform X_test y_test epochs batch_size n_instances verbose
       X_pool y_pool X_initial y_initial estimator n_queries w
     = (Raise ValueError, w')).
Proof.
  intros Hn Hlen.
  destruct (@procedure_exact uniform X_test y_test epochs batch_size n_instances verbose
              n_instances n_instances (uniform_exact Hn)
              X_pool y_pool X_initial y_initial estimator n_queries w Hlen)
    as [Hok Hbad].
  split; intros Hsize.
  - apply Hok. destruct n_queries as [|q]; [now left|right].
    rewrite Nat.sub_succ, Nat.sub_0_r. rewrite Nat.mul_succ_r in Hsize. lia.
  - destruct n_queries as [|q]; [rewrite Nat.mul_0_r in Hsize; lia|].
    apply Hbad; [lia|].
    rewrite Nat.sub_succ, Nat.sub_0_r. rewrite Nat.mul_succ_r in Hsize. lia.
Qed.

(** X6. With max_entropy or bald (T >= 1) and paired pools, each query takes
    m = min(n_instances, 2000) rows and needs 2000 rows to draw from: the
    procedure returns when n_queries = 0 or the pool holds
    2000 + m * (n_queries - 1) rows, and raises ValueError when n_queries >= 1
    and the pool is smaller. *)
Theorem uncertainty_run_needs_2000_rows_to_the_end (X_test : list Row) y_test
  epochs batch_size n_instances verbose T X_pool y_pool X_initial y_initial estimator
  n_queries w :
  1 <= T -> length X_pool = length y_pool ->
  let m := Nat.min n_instances 2000 in
  let run_max_entropy :=
    active_learning_procedure (fun l X n => max_entropy l X n T)
      X_test y_test epochs batch_size n_instances verbose
      X_pool y_pool X_initial y_initial estimator n_queries w in
  let run_bald :=
    active_learning_procedure (fun l X n => bald l X n T)
      X_test y_test epochs batch_size n_instances verbose
      X_pool y_pool X_initial y_initial estimator n_queries w in
  (n_queries = 0 \/ 2000 + m * (n_queries - 1) <= length X_pool ->
   (exists perf_hist w', run_max_entropy = (Ok perf_hist, w')) /\
   (exists perf_hist w', run_bald = (Ok perf_hist, w'))) /\
  (1 <= n_queries -> length X_pool < 2000 + m * (n_queries - 1) ->
   (exists w', run_max_entropy = (Raise ValueError, w')) /\
   (exists w', run_bald = (Raise ValueError, w'))).
Proof.
  intros HT Hlen m r1 r2.
  destruct (@procedure_exact (fun l X n => max_entropy l X n T)
              X_test y_test epochs batch_size n_instances verbose
              2000 m (max_entropy_exact n_instances HT)
              X_pool y_pool X_initial y_initial estimator n_queries w Hlen)
    as [Hok1 Hbad1].
  destruct (@procedure_exact (fun l X n => bald l X n T)
              X_test y_test epochs batch_size n_instances verbose
              2000 m (bald_exact n_instances HT)
              X_pool y_pool X_initial y_initial estimator n_queries w Hlen)
    as [Hok2 Hbad2].
  split.
  - intros H. split; [apply Hok1|apply Hok2]; exact H.
  - intros H1 H2. split; [apply Hbad1|apply Hbad2]; assumption.
Qed.

End ExactStrategies.

(** ** What a run prints and what it costs *)

Section TraceFacts.
Context {L : Libs}.

Lemma prints_of_app tr1 tr2 :
  prints_of (tr1 ++ tr2) = prints_of tr1 ++ prints_of tr2.
Proof.
  induction tr1 as [|e tr1 IH]; simpl; [reflexivity|].
  destruct e; simpl; now rewrite IH.
Qed.

Lemma count_events_app kind tr1 tr2 :
  count_events kind (tr1 ++ tr2) = count_events kind tr1 + count_events kind tr2.
Proof. unfold count_events. now rewrite filter_app, length_app. Qed.

Lemma count_events_repeat kind e n :
  count_events kind (repeat e n) = n * Nat.b2n (kind e).
Proof.
  unfold count_events. induction n as [|n IH]; simpl; [reflexivity|].
  destruct (kind e); simpl in *; rewrite IH; reflexivity.
Qed.

Lemma prints_nothing_ret (A : Type) (a : A) : prints_nothing (ret a).
Proof. intros w. reflexivity. Qed.

Lemma prints_nothing_lift (A : Type) (r : result A) : prints_nothing (lift r).
Proof. intros w. reflexivity. Qed.

Lemma prints_nothing_bind (A B : Type) (c : M A) (k : A -> M B) :
  prints_nothing c -> (forall a, prints_nothing (k a)) -> prints_nothing (bind c k).
Proof.
  intros Hc Hk w. unfold bind. specialize (Hc w).
  destruct (c w) as [[a|e] w1]; simpl in *; [|assumption].
  now rewrite Hk.
Qed.

Lemma prints_nothing_random_choice n k : prints_nothing (random_choice n k).
Proof.
  intros w. unfold random_choice.
  destruct (np_random_choice n k (w_rng w)) as [[l|] g]; simpl;
    now rewrite prints_of_app, app_nil_r.
Qed.

Lemma prints_nothing_MC_sampling learner (X : list Row) s T :
  prints_nothing (MC_sampling learner X s T).
Proof.
  unfold MC_sampling. induction T as [|T IH]; simpl.
  - apply prints_nothing_ret.
  - apply prints_nothing_bind.
    + apply prints_nothing_bind; [apply prints_nothing_lift|]. intros batch w.
      unfold MC_output. destruct (K_function learner batch true (w_rng w)).
      simpl. now rewrite prints_of_app, app_nil_r.
    + intros x. apply prints_nothing_bind; [exact IH|].
      intros xs. apply prints_nothing_ret.
Qed.

Lemma prints_nothing_select_top (s : list nat) (X : list Row) acq n :
  prints_nothing (select_top s X acq n).
Proof.
  unfold select_top. apply prints_nothing_bind; [apply prints_nothing_lift|].
  intros qi. apply prints_nothing_bind; [apply prints_nothing_lift|].
  intros qx. apply prints_nothing_ret.
Qed.

(** The strategies of the notebook print nothing. *)
Lemma strategies_print_nothing learner (X : list Row) n T :
  prints_nothing (uniform learner X n) /\
  prints_nothing (max_entropy learner X n T) /\
  prints_nothing (bald learner X n T).
Proof.
  split; [|split].
  - unfold uniform, random_choice_from.
    apply prints_nothing_bind.
    + apply prints_nothing_bind; [apply prints_nothing_random_choice|].
      intros pos. apply prints_nothing_lift.
    + intros qi. apply prints_nothing_bind; [apply prints_nothing_lift|].
      intros qx. apply prints_nothing_ret.
  - unfold max_entropy.
    apply prints_nothing_bind; [apply prints_nothing_random_choice|]. intros s.
    apply prints_nothing_bind; [apply prints_nothing_MC_sampling|]. intros MC.
    apply prints_nothing_bind; [apply prints_nothing_lift|]. intros acq.
    apply prints_nothing_select_top.
  - unfold bald.
    apply prints_nothing_bind; [apply prints_nothing_random_choice|]. intros s.
    apply prints_nothing_bind; [apply prints_nothing_MC_sampling|]. intros MC.
    apply prints_nothing_bind; [apply prints_nothing_lift|]. intros acq.
    apply prints_nothing_select_top.
Qed.

Section Loop.
Variable query_strategy : strategy.
Variables (X_test : list Row) (y_test : list (list Q)).
Variables (epochs batch_size n_instances verbose : nat).

Local Abbreviation body := (al_body query_strategy X_test y_test epochs batch_size n_instances verbose).
Local Abbreviation loop := (al_loop query_strategy X_test y_test epochs batch_size n_instances verbose).
Local Abbreviation procedure :=
  (active_learning_procedure query_strategy X_test y_test epochs batch_size n_instances verbose).

Lemma initial_state_trace X_pool y_pool X_initial y_initial estimator w :
  w_trace (snd (initial_state X_test y_test verbose X_pool y_pool X_initial y_initial
                              estimator w))
  = w_trace w ++ [Fit (length X_initial) verbose; Score verbose] /\
  st_perf_hist (fst (initial_state X_test y_test verbose X_pool y_pool X_initial
                                   y_initial estimator w))
  = [modAL_score (st_learner (fst (initial_state X_test y_test verbose X_pool y_pool
                                     X_initial y_initial estimator w)))
                 X_test y_test].
Proof.
  unfold initial_state.
  now destruct (ActiveLearner estimator X_initial y_initial (w_rng w)).
Qed.

Lemma al_loop_prints k s st w st' w' :
  (forall l X n, prints_nothing (query_strategy l X n)) ->
  loop (seq s k) st w = (Ok st', w') ->
  exists tail,
    st_perf_hist st' = st_perf_hist st ++ tail /\
    prints_of (w_trace w') = prints_of (w_trace w) ++ combine (seq (s + 1) k) tail.
Proof.
  intros Hq. revert s st w. induction k as [|k IH]; intros s st w H; simpl in H.
  - apply ret_inv in H. destruct H; subst. exists []. simpl.
    now rewrite !app_nil_r.
  - apply bind_Ok_inv in H. destruct H as (st1 & w1 & Hb & H).
    apply al_body_Ok_inv in Hb.
    destruct Hb as (qi & qx & w0 & ? & ? & Hs & _ & _ & _ & _ & _ & Hh & Htr).
    destruct (IH _ _ _ H) as (tail & Ht & Hp).
    exists (modAL_score (st_learner st1) X_test y_test :: tail). split.
    + rewrite Ht, Hh, <- app_assoc. reflexivity.
    + rewrite Hp, Htr, prints_of_app. simpl.
      pose proof (Hq (st_learner st) (st_X_pool st) n_instances w) as Hn.
      rewrite Hs in Hn. simpl in Hn. rewrite Hn, <- app_assoc. simpl.
      now replace (S s + 1) with (S (s + 1)) by lia.
Qed.

Section Counting.
Variables (kind : event -> bool) (of_fit of_score : bool).
Hypothesis kind_fit : forall n v, kind (Fit n v) = of_fit.
Hypothesis kind_score : forall v, kind (Score v) = of_score.
Hypothesis kind_print : forall q a, kind (Print q a) = false.
Variable per_query : nat.
Hypothesis strategy_adds : forall learner X w r w0,
  query_strategy learner X n_instances w = (Ok r, w0) ->
  count_events kind (w_trace w0) = count_events kind (w_trace w) + per_query.

Local Abbreviation per_iteration := (per_query + Nat.b2n of_fit + Nat.b2n of_score).

Lemma al_loop_count l st w st' w' :
  loop l st w = (Ok st', w') ->
  count_events kind (w_trace w')
  = count_events kind (w_trace w) + length l * per_iteration.
Proof.
  revert st w. induction l as [|i l IH]; intros st w H; simpl in H.
  - apply ret_inv in H. destruct H; subst. simpl. lia.
  - apply bind_Ok_inv in H. destruct H as (st1 & w1 & Hb & H).
    apply al_body_Ok_inv in Hb.
    destruct Hb as (qi & qx & w0 & ? & ? & Hs & _ & _ & _ & _ & _ & _ & Htr).
    rewrite (IH _ _ H), Htr, count_events_app, (strategy_adds Hs).
    unfold count_events at 2. simpl filter.
    rewrite kind_fit, kind_score, kind_print.
    simpl length at 2. destruct of_fit, of_score; simpl; lia.
Qed.

Lemma procedure_count X_pool y_pool X_initial y_initial estimator n_queries w
  perf_hist w' :
  procedure X_pool y_pool X_initial y_initial estimator n_queries w
    = (Ok perf_hist, w') ->
  count_events kind (w_trace w')
  = count_events kind (w_trace w) + (Nat.b2n of_fit + Nat.b2n of_score)
    + n_queries * per_iteration.
Proof.
  rewrite procedure_unfold. intros H.
  apply bind_Ok_inv in H. destruct H as (st & w1 & Hl & H).
  apply ret_inv in H. destruct H as [_ ->].
  rewrite (al_loop_count _ _ _ Hl), length_seq.
  destruct (initial_state_trace X_pool y_pool X_initial y_initial estimator w)
    as [-> _].
  rewrite count_events_app. unfold count_events at 2. simpl filter.
  rewrite kind_fit, kind_score. destruct of_fit, of_score; simpl; lia.
Qed.

End Counting.

(** X7. When the strategy prints nothing, the lines that the print
    statement of the loop writes in a returning run are 'Accuracy after
    query k' for k = 1 .. n_queries in this order, each with the accuracy
    stored at place k of the returned history.  This holds for every value
    of verbose, which is handed on to the fits and to the first score only;
    what Keras writes there when verbose is not 0 is no line of the print
    statement. *)
Theorem printed_accuracies_are_the_history X_pool y_pool X_initial y_initial
  estimator n_queries w perf_hist w' :
  (forall l X n, prints_nothing (query_strategy l X n)) ->
  procedure X_pool y_pool X_initial y_initial estimator n_queries w
    = (Ok perf_hist, w') ->
  prints_of (w_trace w')
  = prints_of (w_trace w) ++ combine (seq 1 n_queries) (tl perf_hist).
Proof.
  intros Hq. rewrite procedure_unfold. intros H.
  apply bind_Ok_inv in H. destruct H as (st & w1 & Hl & H).
  apply ret_inv in H. destruct H as [-> ->].
  destruct (@al_loop_prints _ _ _ _ _ _ Hq Hl) as (tail & Ht & Hp).
  destruct (initial_state_trace X_pool y_pool X_initial y_initial estimator w)
    as [Htr Hh].
  rewrite Hp, Ht, Hh, Htr, prints_of_app. simpl. now rewrite app_nil_r.
Qed.

End Loop.
End TraceFacts.

Section RunCost.
Context {L : Libs} {OK : LibsOk L}.

Lemma strategy_events learner (X : list Row) n T w r w0 :
  1 <= T ->
  (uniform learner X n w = (Ok r, w0) ->
   w_trace w0 = w_trace w ++ [RandomChoice (length X) n]) /\
  (max_entropy learner X n T w = (Ok r, w0)
   \/ bald learner X n T w = (Ok r, w0) ->
   w_trace w0 = w_trace w ++ RandomChoice (length X) 2000
                           :: repeat (ForwardPass 2000 true) T).
Proof.
  intros HT. split.
  - rewrite uniform_unfold. intros H. run_inv H.
    apply lift_Ok_inv in Hrun0. destruct Hrun0 as [_ ->].
    now destruct (random_choice_Ok _ _ _ Hrun) as (_ & _ & _ & Htr).
  - intros H.
    assert (2000 <= length X) as HX.
    { destruct H as [H|H]; [unfold max_entropy in H|unfold bald in H];
        apply bind_Ok_inv in H; destruct H as (s & w1 & Hc & _);
        eapply drawn_subset_fits; eauto. }
    destruct H as [H|H].
    + destruct (max_entropy_run learner X n w HX HT)
        as (? & ? & ? & w2 & ? & ? & _ & _ & _ & _ & _ & _ & Ht & Hr & _).
      rewrite Hr in H. now inversion H; subst.
    + destruct (bald_run learner X n w HX HT)
        as (? & ? & ? & w2 & ? & ? & _ & _ & _ & _ & _ & _ & Ht & Hr & _).
      rewrite Hr in H. now inversion H; subst.
Qed.

(** What one returning query adds to the counts of a kind of event that is
    no RandomChoice. *)
Lemma strategy_count kind learner (X : list Row) n T w r w0 :
  1 <= T -> (forall population size, kind (RandomChoice population size) = false) ->
  (uniform learner X n w = (Ok r, w0) ->
   count_events kind (w_trace w0) = count_events kind (w_trace w) + 0) /\
  (max_entropy learner X n T w = (Ok r, w0)
   \/ bald learner X n T w = (Ok r, w0) ->
   count_events kind (w_trace w0)
   = count_events kind (w_trace w) + T * Nat.b2n (kind (ForwardPass 2000 true))).
Proof.
  intros HT Hk.
  destruct (strategy_events learner X n w r w0 HT) as [Hu Hm]. split; intros H.
  - rewrite (Hu H), count_events_app. unfold count_events at 2. simpl.
    now rewrite Hk.
  - rewrite (Hm H), count_events_app.
    change (RandomChoice (length X) 2000 :: repeat (ForwardPass 2000 true) T)
      with ([RandomChoice (length X) 2000] ++ repeat (ForwardPass 2000 true) T).
    rewrite count_events_app, count_events_repeat.
    unfold count_events at 2. simpl. now rewrite Hk.
Qed.

(** X11. A returning run fits the network n_queries + 1 times and scores it
    n_queries + 1 times whichever strategy of the notebook it uses; besides
    these, a run with max_entropy or bald (T >= 1) makes exactly
    n_queries * T forward passes through MC_output, a run with uniform
    none. *)
Theorem network_calls_of_a_run (X_test : list Row) y_test epochs batch_size
  n_instances verbose T X_pool y_pool X_initial y_initial estimator n_queries w
  perf_hist w' :
  1 <= T ->
  (active_learning_procedure (fun l X n => max_entropy l X n T)
     X_test y_test epochs batch_size n_instances verbose
     X_pool y_pool X_initial y_initial estimator n_queries w = (Ok perf_hist, w')
   \/ active_learning_procedure (fun l X n => bald l X n T)
        X_test y_test epochs batch_size n_instances verbose
        X_pool y_pool X_initial y_initial estimator n_queries w = (Ok perf_hist, w')
   -> mc_forward_passes (w_trace w')
      = mc_forward_passes (w_trace w) + n_queries * T /\
      fits (w_trace w') = fits (w_trace w) + (n_queries + 1) /\
      scores (w_trace w') = scores (w_trace w) + (n_queries + 1)) /\
  (active_learning_procedure uniform
     X_test y_test epochs batch_size n_instances verbose
     X_pool y_pool X_initial y_initial estimator n_queries w = (Ok perf_hist, w')
   -> mc_forward_passes (w_trace w') = mc_forward_passes (w_trace w) /\
      fits (w_trace w') = fits (w_trace w) + (n_queries + 1) /\
      scores (w_trace w') = scores (w_trace w) + (n_queries + 1)).
Proof.
  intros HT.
  assert (forall kind of_fit of_score query_strategy per_query,
            (forall n v, kind (Fit n v) = of_fit) ->
            (forall v, kind (Score v) = of_score) ->
            (forall q a, kind (Print q a) = false) ->
            (forall learner X w r w0,
               query_strategy learner X n_instances w = (Ok r, w0) ->
               count_events kind (w_trace w0)
               = count_events kind (w_trace w) + per_query) ->
            active_learning_procedure query_strategy
              X_test y_test epochs batch_size n_instances verbose
              X_pool y_pool X_initial y_initial estimator n_queries w
              = (Ok perf_hist, w') ->
            count_events kind (w_trace w')
            = count_events kind (w_trace w)
              + (Nat.b2n of_fit + Nat.b2n of_score)
              + n_queries * (per_query + Nat.b2n of_fit + Nat.b2n of_score))
    as count.
  { intros kind of_fit of_score qs per_query Hf Hs Hp Hq H.
    eapply procedure_count; eauto. }
  unfold mc_forward_passes, fits, scores. split.
  - intros H.
    assert (forall kind of_fit of_score,
              (forall n v, kind (Fit n v) = of_fit) ->
              (forall v, kind (Score v) = of_score) ->
              (forall q a, kind (Print q a) = false) ->
              (forall p s, kind (RandomChoice p s) = false) ->
              count_events kind (w_trace w')
              = count_events kind (w_trace w)
                + (Nat.b2n of_fit + Nat.b2n of_score)
                + n_queries * (T * Nat.b2n (kind (ForwardPass 2000 true))
                               + Nat.b2n of_fit + Nat.b2n of_score)) as E.
    { intros kind of_fit of_score Hf Hs Hp Hr.
      destruct H as [H|H]; (eapply count; [exact Hf|exact Hs|exact Hp| |exact H]);
        intros learner X w1 r w2 Hq;
        destruct (strategy_count kind learner X n_instances w1 r w2 HT Hr)
          as [_ Hm]; apply Hm; auto. }
    split; [|split].
    + rewrite (E is_forward false false) by reflexivity. simpl. lia.
    + rewrite (E is_fit true false) by reflexivity. simpl. lia.
    + rewrite (E is_score false true) by reflexivity. simpl. lia.
  - intros H.
    assert (forall kind of_fit of_score,
              (forall n v, kind (Fit n v) = of_fit) ->
              (forall v, kind (Score v) = of_score) ->
              (forall q a, kind (Print q a) = false) ->
              (forall p s, kind (RandomChoice p s) = false) ->
              count_events kind (w_trace w')
              = count_events kind (w_trace w)
                + (Nat.b2n of_fit + Nat.b2n of_score)
                + n_queries * (0 + Nat.b2n of_fit + Nat.b2n of_score)) as E.
    { intros kind of_fit of_score Hf Hs Hp Hr.
      eapply count; [exact Hf|exact Hs|exact Hp| |exact H].
      intros learner X w1 r w2 Hq.
      destruct (strategy_count kind learner X n_instances w1 r w2 HT Hr)
        as [Hu _]. now apply Hu. }
    split; [|split].
    + rewrite (E is_forward false false) by reflexivity. simpl. lia.
    + rewrite (E is_fit true false) by reflexivity. simpl. lia.
    + rewrite (E is_score false true) by reflexivity. simpl. lia.
Qed.

End RunCost.

(** ** Nothing is lost between the labelled set and the pool *)

Section Partition.
Variable A : Type.

Lemma rows_at_map (X : list A) ps Y :
  rows_at X ps Y -> map (nth_error X) ps = map Some Y.
Proof. induction 1 as [|p y ps Y Hp _ IH]; simpl; [reflexivity|]. now rewrite Hp, IH. Qed.

Lemma map_Some_inj (Y Y' : list A) : map Some Y = map Some Y' -> Y = Y'.
Proof.
  revert Y'. induction Y as [|y Y IH]; intros [|y' Y'] H; simpl in H;
    try discriminate; [reflexivity|].
  inversion H. f_equal. now apply IH.
Qed.

Lemma rows_at_perm (X : list A) ps ps' Y Y' :
  rows_at X ps Y -> rows_at X ps' Y' -> Permutation ps ps' -> Permutation Y Y'.
Proof.
  intros H H' P. apply rows_at_map in H, H'.
  pose proof (Permutation_map (nth_error X) P) as PM. rewrite H, H' in PM.
  destruct (Permutation_map_inv _ _ PM) as (Z & HZ & PZ).
  apply map_Some_inj in HZ. subst Z. now symmetry.
Qed.

Lemma positions_split idx n :
  NoDup idx -> Forall (fun i => i < n) idx ->
  Permutation (idx ++ filter (kept idx) (seq 0 n)) (seq 0 n).
Proof.
  intros Hnd Hr. apply NoDup_Permutation.
  - apply NoDup_app; [assumption|apply NoDup_filter, seq_NoDup|].
    intros i Hi Hf. apply filter_In in Hf. destruct Hf as [_ Hk].
    apply kept_true in Hk. contradiction.
  - apply seq_NoDup.
  - intros i. rewrite in_app_iff, filter_In, in_seq. rewrite Forall_forall in Hr.
    split.
    + intros [Hi|[Hi _]]; [specialize (Hr i Hi)|]; lia.
    + intros Hi. destruct (in_dec Nat.eq_dec i idx) as [Hin|Hout]; [now left|].
      right. split; [assumption|now apply kept_true].
Qed.

(** The rows taken at distinct positions and the rows left by deleting
    those positions make up the array. *)
Lemma take_delete_perm (X : list A) idx Xi :
  NoDup idx -> rows_at X idx Xi -> Permutation (Xi ++ np_delete X idx) X.
Proof.
  intros Hnd Hrows.
  assert (Forall (fun i => i < length X) idx) as Hr.
  { clear Hnd. induction Hrows; constructor; auto.
    apply nth_error_Some. congruence. }
  eapply rows_at_perm.
  - apply Forall2_app; [exact Hrows|apply rows_at_delete].
  - apply rows_at_all.
  - now apply positions_split.
Qed.

End Partition.

Lemma nth_error_combine (A B : Type) (X : list A) (Y : list B) i x y :
  nth_error X i = Some x -> nth_error Y i = Some y ->
  nth_error (combine X Y) i = Some (x, y).
Proof.
  revert X Y. induction i as [|i IH]; intros [|a X] [|b Y]; simpl;
    try discriminate.
  - now intros [= ->] [= ->].
  - apply IH.
Qed.

Lemma rows_at_combine (A B : Type) (X : list A) (Y : list B) ps Xi Yi :
  rows_at X ps Xi -> rows_at Y ps Yi ->
  rows_at (combine X Y) ps (combine Xi Yi).
Proof.
  intros HX. revert Yi. induction HX as [|p x ps Xi Hp _ IH]; intros Yi HY.
  - inversion HY. constructor.
  - inversion HY as [|? y ? Yt Hq HYt]; subst. simpl. constructor.
    + now apply nth_error_combine.
    + now apply IH.
Qed.

Section PartitionClaims.
Context {L : Libs} {OK : LibsOk L}.

(** X8. On data of the shape of MNIST the split loses and repeats nothing:
    the initial examples followed by the pool, each row with its label, are
    a permutation of the training set. *)
Theorem split_partitions_the_training_set Xtr ytr Xte yte w :
  mnist_shaped Xtr ytr Xte yte ->
  exists d w',
    data_cells Xtr ytr Xte yte w = (Ok d, w') /\
    Permutation (combine (X_initial d) (y_initial d)
                 ++ combine (X_pool d) (y_pool d))
                (combine (X_train d) (y_train d)).
Proof.
  intros Hd.
  destruct (data_cells_run w Hd)
    as (d & w' & Hrun & _ & Hnd & _ & _ & _ & HXi & Hyi & HXp & Hyp & _).
  exists d, w'. split; [assumption|].
  rewrite HXp, Hyp, np_delete_combine.
  apply take_delete_perm; [assumption|]. now apply rows_at_combine.
Qed.

(** X9. In an iteration that completes on paired pools the learner is
    taught the pool rows at the queried indices, each with its own label;
    when the queried indices are pairwise distinct, the taught rows and the
    new pool together are a permutation of the old pool. *)
Theorem taught_rows_are_the_removed_rows (query_strategy : strategy)
  (X_test : list Row) y_test epochs batch_size n_instances verbose index st w st1 w1 :
  length (st_X_pool st) = length (st_y_pool st) ->
  al_body query_strategy X_test y_test epochs batch_size n_instances verbose index st w
    = (Ok st1, w1) ->
  exists query_idx query_instance w0 X_new y_new,
    query_strategy (st_learner st) (st_X_pool st) n_instances w
      = (Ok (query_idx, query_instance), w0) /\
    st_learner st1
      = fst (modAL_teach (st_learner st) X_new y_new epochs batch_size (w_rng w0)) /\
    rows_at (combine (st_X_pool st) (st_y_pool st)) query_idx
            (combine X_new y_new) /\
    length X_new = length query_idx /\ length y_new = length query_idx /\
    (NoDup query_idx ->
     Permutation (combine X_new y_new
                  ++ combine (st_X_pool st1) (st_y_pool st1))
                 (combine (st_X_pool st) (st_y_pool st))).
Proof.
  intros Hlen Hb. apply al_body_Ok_inv in Hb.
  destruct Hb as (qi & qx & w0 & X_new & y_new & Hq & HXn & Hyn & Hl & HX & Hy & _).
  exists qi, qx, w0, X_new, y_new.
  assert (rows_at (combine (st_X_pool st) (st_y_pool st)) qi (combine X_new y_new))
    as Hrows
    by (apply rows_at_combine; now apply np_take_Ok_Forall2).
  split; [assumption|]. split; [assumption|]. split; [assumption|].
  split; [eapply np_take_length; eauto|]. split; [eapply np_take_length; eauto|].
  intros Hnd. rewrite HX, Hy, np_delete_combine. now apply take_delete_perm.
Qed.

Lemma initial_idx_loop_short y c k c0 acc w :
  c0 <= c < c0 + k -> c0 + k <= 10 ->
  count_occ Nat.eq_dec y c < 2 ->
  exists w',
    initial_idx_loop (seq c0 k) (map (one_hot 10) y) acc w
      = (Raise ValueError, w').
Proof.
  revert c0 acc w. induction k as [|k IH]; intros c0 acc w Hc Hk Hcnt; [lia|].
  simpl. rewrite np_where_labels by lia.
  destruct (le_lt_dec 2 (count_occ Nat.eq_dec y c0)) as [Hge|Hlt].
  - destruct (@random_choice_from_run L OK (label_positions c0 0 y) w)
      as (idx & w1 & Hrun & _).
    { now rewrite label_positions_length. }
    { apply label_positions_NoDup. }
    erewrite bind_Ok; [|exact Hrun].
    apply IH; [|lia|assumption].
    assert (c <> c0) by (intros ->; lia). lia.
  - destruct (@random_choice_small L OK (length (label_positions c0 0 y)) 2 w)
      as (g & Hc0).
    { now rewrite label_positions_length. }
    eexists. unfold random_choice_from.
    erewrite bind_Raise; [reflexivity|].
    erewrite bind_Raise; [reflexivity|exact Hc0].
Qed.

(** X10. When some digit has fewer than two training examples (the data
    being otherwise of the expected sizes and labels), the data cells stop
    with ValueError at the draw of the initial examples. *)
Theorem split_needs_two_examples_of_each_class Xtr ytr Xte yte w c :
  length Xtr = n_train -> length Xte = n_test ->
  Forall (fun l => l < 10) ytr -> Forall (fun l => l < 10) yte ->
  c < 10 -> count_occ Nat.eq_dec ytr c < 2 ->
  exists w', data_cells Xtr ytr Xte yte w = (Raise ValueError, w').
Proof.
  intros HX HXt Hlab Hlabt Hc Hcnt.
  destruct (@initial_idx_loop_short ytr c 10 0 [] w) as (w' & Hloop);
    [lia|lia|assumption|].
  exists w'. unfold data_cells, preprocess. rewrite HX, HXt, !Nat.eqb_refl.
  rewrite (to_categorical_run Hlab), (to_categorical_run Hlabt).
  unfold bind at 1 2 3 4, lift at 1 2 3 4.
  erewrite bind_Raise; [reflexivity|exact Hloop].
Qed.

End PartitionClaims.

(** ** Asking for more instances *)

Section Nested.
Context {L : Libs} {OK : LibsOk L}.

Lemma rows_at_firstn (A : Type) (X : list A) ps Y n :
  rows_at X ps Y -> rows_at X (firstn n ps) (firstn n Y).
Proof.
  intros H. revert n. induction H as [|p y ps Y Hp _ IH]; intros [|n]; simpl;
    try (constructor; fail).
  constructor; [assumption|apply IH].
Qed.

Lemma rows_at_functional (A : Type) (X : list A) ps Y Y' :
  rows_at X ps Y -> rows_at X ps Y' -> Y = Y'.
Proof.
  intros H H'. apply rows_at_map in H, H'. rewrite H in H'.
  now apply map_Some_inj.
Qed.

Lemma select_top_prefix (s : list nat) (X : list Row) acq n n' w :
  length acq = length s -> NoDup s -> Forall (fun i => i < length X) s ->
  n <= n' ->
  exists qi' qx',
    select_top s X acq n' w = (Ok (qi', qx'), w) /\
    select_top s X acq n w = (Ok (firstn n qi', firstn n qx'), w).
Proof.
  intros Hlen Hnd Hr Hn.
  destruct (@select_top_run L OK s X acq n w Hlen Hnd Hr)
    as (idx & qx & Hsel & Hidx & _ & _ & _ & Hrows).
  destruct (@select_top_run L OK s X acq n' w Hlen Hnd Hr)
    as (idx' & qx' & Hsel' & Hidx' & _ & _ & _ & Hrows').
  exists (map (fun p => nth p s 0) idx'), qx'. split; [assumption|].
  assert (map (fun p => nth p s 0) idx
          = firstn n (map (fun p => nth p s 0) idx')) as E.
  { rewrite firstn_map. f_equal. rewrite Hidx, Hidx', firstn_firstn.
    now rewrite Nat.min_l. }
  rewrite Hsel, E. repeat f_equal.
  eapply rows_at_functional; [exact Hrows|].
  rewrite E. now apply rows_at_firstn.
Qed.

(** X12. Asking max_entropy or bald for more instances keeps the earlier
    ones: from the same state, the answer for n is the first n entries of
    the answer for any n' >= n (pool of at least 2000 rows, T >= 1). *)
Theorem asking_for_more_keeps_the_first learner (X : list Row) n n' T w :
  2000 <= length X -> 1 <= T -> n <= n' ->
  (exists qi' qx' w',
     max_entropy learner X n' T w = (Ok (qi', qx'), w') /\
     max_entropy learner X n T w = (Ok (firstn n qi', firstn n qx'), w')) /\
  (exists qi' qx' w',
     bald learner X n' T w = (Ok (qi', qx'), w') /\
     bald learner X n T w = (Ok (firstn n qi', firstn n qx'), w')).
Proof.
  intros HX HT Hn.
  destruct (draw_and_sample learner X T w HX)
    as (s & w1 & MC & w' & Hc & Hl & Hnd & Hr & Hm & Hsh & _).
  split.
  - destruct (max_entropy_acquisition_formula Hsh HT) as (acq & Ha & Hla & _).
    destruct (@select_top_prefix s X acq n n' w') as (qi' & qx' & H' & H);
      try assumption; try lia.
    exists qi', qx', w'.
    assert (forall k, max_entropy learner X k T w = select_top s X acq k w') as E.
    { intros k. unfold max_entropy. erewrite bind_Ok; [|exact Hc].
      erewrite bind_Ok; [|exact Hm]. unfold bind, lift. now rewrite Ha. }
    rewrite !E. split; assumption.
  - destruct (bald_acquisition_formula Hsh HT) as (acq & Ha & Hla & _).
    destruct (@select_top_prefix s X acq n n' w') as (qi' & qx' & H' & H);
      try assumption; try lia.
    exists qi', qx', w'.
    assert (forall k, bald learner X k T w = select_top s X acq k w') as E.
    { intros k. unfold bald. erewrite bind_Ok; [|exact Hc].
      erewrite bind_Ok; [|exact Hm]. unfold bind, lift. now rewrite Ha. }
    rewrite !E. split; assumption.
Qed.

End Nested.

(** ** The further properties on the stand-in libraries *)

Module MoreWitnesses.
Import TestLibs TestLibsFacts.

Lemma uncertainty_strategies_trace_witness :
  w_trace (snd (max_entropy (L := test_libs) (0 : nat) (seq 0 5) 10 100 w0))
  = w_trace w0 ++ [RandomChoice (length (seq 0 5)) 2000].
Proof.
  destruct (@uncertainty_strategies_trace test_libs test_libs_ok (0 : nat)
              (seq 0 5) 10 100 w0) as [_ H]; [lia|].
  apply H. rewrite length_seq. lia.
Defined.

Lemma bald_single_sample_witness :
  exists acq, bald_acquisition (L := test_libs) [[[1 # 2; 1 # 2]%Q]] = Ok acq /\
              Qeq (nthQ 0 acq) 0.
Proof.
  destruct (@bald_single_sample_scores_zero test_libs test_libs_ok 1 2
              [[1 # 2; 1 # 2]%Q]) as (acq & Ha & _ & Hz).
  - split; [reflexivity|]. repeat constructor.
  - exists acq. split; [exact Ha|]. apply Hz. lia.
Defined.

Lemma sample_order_witness :
  exists acq acq',
    max_entropy_acquisition (L := test_libs) [[[1; 0]%Q]; [[0; 1]%Q]] = Ok acq /\
    max_entropy_acquisition (L := test_libs) [[[0; 1]%Q]; [[1; 0]%Q]] = Ok acq' /\
    Qeq (nthQ 0 acq) (nthQ 0 acq').
Proof.
  destruct (@acquisition_ignores_sample_order test_libs test_libs_ok 2 1 2
              [[[1; 0]%Q]; [[0; 1]%Q]] [[[0; 1]%Q]; [[1; 0]%Q]])
    as [(acq & acq' & Ha & Ha' & He) _].
  - split; [reflexivity|]. repeat constructor.
  - lia.
  - apply perm_swap.
  - exists acq, acq'. repeat split; auto.
Defined.

Lemma uniform_sample_witness :
  exists query_idx query_instance g,
    uniform (L := test_libs) (0 : nat) [5; 6; 7] 2 w0
      = (Ok (query_idx, query_instance),
         World g (w_trace w0 ++ [RandomChoice 3 2])) /\
    length query_idx = 2.
Proof.
  destruct (@uniform_returns_a_sample test_libs test_libs_ok (0 : nat) [5; 6; 7] 2 w0)
    as (qi & qx & g & Hrun & Hl & _).
  - simpl. lia.
  - simpl. lia.
  - exists qi, qx, g. split; [exact Hrun|exact Hl].
Defined.

Lemma uniform_run_witness :
  exists perf_hist w',
    active_learning_procedure (L := test_libs) uniform [] [] 50 128 10 0
      (seq 0 50) (repeat [] 50) [] [] tt 5 w0 = (Ok perf_hist, w').
Proof.
  destruct (@uniform_run_needs_enough_rows test_libs test_libs_ok [] [] 50 128 10 0
              (seq 0 50) (repeat [] 50) [] [] tt 5 w0) as [H _].
  - lia.
  - now rewrite length_seq, repeat_length.
  - apply H. rewrite length_seq. simpl. lia.
Defined.

Lemma uncertainty_run_witness :
  exists perf_hist w',
    active_learning_procedure (L := test_libs) (fun l X n => max_entropy l X n 1)
      [] [] 50 128 10 0 (seq 0 2000) (repeat [] 2000) [] [] tt 1 w0
    = (Ok perf_hist, w').
Proof.
  destruct (@uncertainty_run_needs_2000_rows_to_the_end test_libs test_libs_ok
              [] [] 50 128 10 0 1 (seq 0 2000) (repeat [] 2000) [] [] tt 1 w0)
    as [H _].
  - lia.
  - now rewrite length_seq, repeat_length.
  - destruct H as [H _]; [|exact H].
    right. rewrite length_seq. simpl. lia.
Defined.

Lemma printed_accuracies_witness :
  prints_of (w_trace small_run_end)
  = prints_of (w_trace w0)
    ++ combine (seq 1 2) (tl [(0 # 1000)%Q; (1 # 1000)%Q; (2 # 1000)%Q]).
Proof.
  apply (@printed_accuracies_are_the_history test_libs uniform [] [] 50 128 1 0
           [5; 6; 7] [[1%Q]; [0%Q]; [1%Q]] [] [] tt 2 w0).
  - intros l X n. apply (strategies_print_nothing l X n 1).
  - exact small_run_result.
Defined.

Lemma split_partition_witness :
  exists d w',
    data_cells (L := test_libs) X_train_raw y_train_raw X_test_raw y_test_raw w0
      = (Ok d, w') /\
    Permutation (combine (X_initial d) (y_initial d)
                 ++ combine (X_pool d) (y_pool d))
                (combine (X_train d) (y_train d)).
Proof.
  exact (@split_partitions_the_training_set test_libs test_libs_ok
           X_train_raw y_train_raw X_test_raw y_test_raw w0
           Witnesses.test_data_shaped).
Defined.

Lemma taught_rows_witness :
  exists (query_idx : list nat) (X_new : list nat) (y_new : list (list Q)),
    length X_new = length query_idx /\
    (NoDup query_idx ->
     Permutation (combine X_new y_new ++ combine [6; 7] [[0%Q]; [1%Q]])
                 (combine [5; 6; 7] [[1%Q]; [0%Q]; [1%Q]])).
Proof.
  destruct (@taught_rows_are_the_removed_rows test_libs uniform [] [] 50 128 1 0 0
              (AlState (L := test_libs) (20 : nat) [5; 6; 7]
                       [[1%Q]; [0%Q]; [1%Q]] [(20 # 1000)%Q])
              w0
              (AlState (L := test_libs) (21 : nat) [6; 7] [[0%Q]; [1%Q]]
                       [(20 # 1000)%Q; (21 # 1000)%Q])
              (World (2 : @rng test_libs)
                     [RandomChoice 3 1; Fit 1 0; Score 0; Print 1 (21 # 1000)%Q]))
    as (qi & qx & w1 & X_new & y_new & _ & _ & _ & Hl & _ & Hp).
  - reflexivity.
  - reflexivity.
  - exists qi, X_new, y_new. split; [exact Hl|exact Hp].
Defined.

Lemma one_digit_only_witness :
  exists w',
    data_cells (L := test_libs) X_train_raw (repeat 0 n_train)
               X_test_raw y_test_raw w0
    = (Raise ValueError, w').
Proof.
  destruct Witnesses.test_data_shaped as (HX & _ & _ & _ & HXt & Hlabt).
  apply (@split_needs_two_examples_of_each_class test_libs test_libs_ok
           X_train_raw (repeat 0 n_train) X_test_raw y_test_raw w0 1);
    try assumption.
  - apply Forall_forall. intros l Hl. apply repeat_spec in Hl. lia.
  - lia.
  - rewrite count_occ_repeat_neq by discriminate. lia.
Defined.

Lemma network_calls_witness :
  mc_forward_passes (w_trace small_run_end) = mc_forward_passes (w_trace w0) /\
  fits (w_trace small_run_end) = fits (w_trace w0) + (2 + 1) /\
  scores (w_trace small_run_end) = scores (w_trace w0) + (2 + 1).
Proof.
  destruct (@network_calls_of_a_run test_libs test_libs_ok [] [] 50 128 1 0 1
              [5; 6; 7] [[1%Q]; [0%Q]; [1%Q]] [] [] tt 2 w0
              [(0 # 1000)%Q; (1 # 1000)%Q; (2 # 1000)%Q] small_run_end)
    as [_ H]; [lia|].
  apply H. exact small_run_result.
Defined.

Lemma asking_for_more_witness :
  exists qi' qx' w',
    max_entropy (L := test_libs) (0 : nat) (seq 0 2000) 2 1 w0
      = (Ok (qi', qx'), w') /\
    max_entropy (L := test_libs) (0 : nat) (seq 0 2000) 1 1 w0
      = (Ok (firstn 1 qi', firstn 1 qx'), w').
Proof.
  destruct (@asking_for_more_keeps_the_first test_libs test_libs_ok (0 : nat)
              (seq 0 2000) 1 2 1 w0) as [H _].
  - rewrite length_seq. lia.
  - lia.
  - lia.
  - exact H.
Defined.

End MoreWitnesses.
